(** * Voxel-wise group analysis and its preparation step

  A shallow embedding of the two scripts of Assignment 4:

  - [groupanalysis (2).py]: [load_files], [perform_group_analysis],
    [save_results], [main];
  - [prepare.py]: [register_to_standard], [create_file_list], [main].

  Arrays hold IEEE 754 binary64 numbers.  They are modelled with the
  inductive specification of floating-point arithmetic of the standard
  library ([SpecFloat], precision 53, maximal exponent 1024), so every
  operation of the scripts ([+], [-], [*], [/], [sqrt]) is the correctly
  rounded one and can be evaluated.  What the scripts delegate to numpy's
  reduction ([add.reduce]) and to scipy's distributions ([stats.t.sf],
  [stats.norm.isf]) is a parameter of the development. *)

From Stdlib Require Import ZArith Bool Lia.
From Stdlib Require Import Floats.SpecFloat.
From Stdlib Require Import Strings.String Strings.Ascii Numbers.DecimalString.
From stdpp Require Import base option list gmap strings.

Set Default Proof Using "Type".

(** ** Binary64 numbers *)

Module Float64.

Definition prec : Z := 53.
Definition emax : Z := 1024.

Definition float : Type := spec_float.

Definition add : float → float → float := SFadd prec emax.
Definition sub : float → float → float := SFsub prec emax.
Definition mul : float → float → float := SFmul prec emax.
Definition div : float → float → float := SFdiv prec emax.
Definition sqrt : float → float := SFsqrt prec emax.

(** Conversion of a Python [int] to a double (round to nearest even). *)
Definition of_Z (n : Z) : float := binary_normalize prec emax n 0 false.

Definition zero : float := S754_zero false.
Definition one : float := Eval vm_compute in of_Z 1.
Definition minus_one : float := Eval vm_compute in of_Z (-1).

Definition is_nan (x : float) : bool :=
  match x with S754_nan => true | _ => false end.

Definition is_inf (x : float) : bool :=
  match x with S754_infinity _ => true | _ => false end.

Definition is_zero (x : float) : bool :=
  match x with S754_zero _ => true | _ => false end.

(** Neither NaN nor an infinity. *)
Definition is_finite (x : float) : bool :=
  match x with
  | S754_zero _ | S754_finite _ _ _ => true
  | S754_infinity _ | S754_nan => false
  end.

(** Strictly positive, resp. strictly negative (infinities included). *)
Definition is_pos (x : float) : bool :=
  match x with
  | S754_finite false _ _ | S754_infinity false => true
  | _ => false
  end.

Definition is_neg (x : float) : bool :=
  match x with
  | S754_finite true _ _ | S754_infinity true => true
  | _ => false
  end.

Global Instance float_eq_dec : EqDecision float.
Proof. solve_decision. Defined.

Global Instance float_inhabited : Inhabited float := populate zero.

End Float64.

Import Float64.

(** ** The numpy functions the analysis calls *)

Module Numpy.

(** An n-dimensional array of doubles: its shape and its elements in
    C (row-major) order. *)
Record ndarray := NDArray { shape : list nat; flat : list float }.

Definition numel (shp : list nat) : nat := foldr Nat.mul 1 shp.

(** [np.abs] *)
Definition np_abs : float → float := SFabs.

(** [np.sign]: [1] above zero, [-1] below, [0] at either zero, NaN at
    NaN. *)
Definition np_sign (x : float) : float :=
  match x with
  | S754_nan => S754_nan
  | S754_zero _ => zero
  | S754_finite s _ _ | S754_infinity s => if s then minus_one else one
  end.

(** [np.sqrt] *)
Definition np_sqrt : float → float := sqrt.

(** [np.nan_to_num(x, nan=, posinf=, neginf=)] on one element. *)
Definition nan_to_num (nan posinf neginf : float) (x : float) : float :=
  match x with
  | S754_nan => nan
  | S754_infinity false => posinf
  | S754_infinity true => neginf
  | _ => x
  end.

(** The sequential accumulation [((0 + a0) + a1) + ...]: what numpy's
    [add.reduce] computes on fewer than eight elements. *)
Definition seq_sum (l : list float) : float := foldl add zero l.

Section Reductions.

(** [np.add.reduce] along the subject axis.  The order in which numpy
  accumulates (pairwise, in blocks) is its own. *)
Variable np_sum : list float → float.

(** [np.mean(a, axis=1)] on one row: the sum divided by the count. *)
Definition np_mean (row : list float) : float :=
  div (np_sum row) (of_Z (Z.of_nat (length row))).

(** [np.var(a, axis=1, ddof=)] on one row: the mean is subtracted, the
  deviations are multiplied by themselves and summed, and the sum is
  divided by [max(n - ddof, 0)]. *)
Definition np_var (ddof : Z) (row : list float) : float :=
  let arrmean := div (np_sum row) (of_Z (Z.of_nat (length row))) in
  let x := (λ a, sub a arrmean) <$> row in
  let x := (λ d, mul d d) <$> x in
  let ret := np_sum x in
  let rcount := Z.max (Z.of_nat (length row) - ddof) 0 in
  div ret (of_Z rcount).

(** [np.std(a, axis=1, ddof=)] on one row. *)
Definition np_std (ddof : Z) (row : list float) : float :=
  np_sqrt (np_var ddof row).

End Reductions.

(** [np.stack(data_list, axis=-1).reshape(-1, num_subjects)]: one row per
  voxel, holding that voxel's value in every subject.  [np.stack] raises
  on an empty list and on arrays of different shapes. *)
Definition stack_last (data_list : list ndarray)
  : option (list nat * list (list float)) :=
  match data_list with
  | [] => None
  | a :: rest =>
      if forallb (λ b, bool_decide (shape b = shape a)) rest
      then Some (shape a,
                 (λ v, (λ b, default zero (flat b !! v)) <$> data_list)
                   <$> seq 0 (numel (shape a)))
      else None
  end.

End Numpy.

Import Numpy.

(** ** groupanalysis (2).py *)

Module GroupAnalysis.

(** What [nib.load] returns.  The header has been read, so [img.shape] is
  known; the data are read from the file only when [get_fdata] is called,
  and that call raises when the file does not hold them (a truncated
  volume).  The affine and the rest of the header are copied to the outputs
  and never inspected. *)
Record image := Nifti1Image {
  img_shape : list nat;
  dataobj : option (list float)
}.

(** [img.get_fdata()]: the data as doubles, in the shape of the header;
  [None] when reading them raises. *)
Definition get_fdata (img : image) : option ndarray :=
  NDArray (img_shape img) <$> dataobj img.

(** *** load_files *)

(** How a call ends: it returns, an exception leaves it uncaught, or
  [sys.exit] ends the process. *)
Inductive exception := OSError | ValueError.

Inductive outcome (A : Type) :=
  | Returns (a : A)
  | Raises (exc : exception)
  | Exits (status : Z).
Arguments Returns {A} a.
Arguments Raises {A} exc.
Arguments Exits {A} status.

(** Fatal: the caller gets no value. *)
Definition fatal {A} (o : outcome A) : Prop :=
  match o with Returns _ => False | _ => True end.

(** The lines [load_files] prints, by their format string; the text of a
  caught exception is left out. *)
Inductive message :=
  | MsgLoading (n : nat)
  | MsgErrorLoading (path : string)
  | MsgDifferentDimensions
  | MsgPathShape (path : string) (shp : list nat).

(** The files [load_files] can see: text files by their lines, as iterating
  over the open file yields them, and the volumes [nib.load] can read.  A
  path outside [text_files] cannot be opened; [nib.load] raises on a path
  outside [volumes]. *)
Record filesystem := FileSystem {
  text_files : gmap string (list string);
  volumes : gmap string image
}.

(** The white space [str.strip()] removes, by code point: the characters
  of [Py_UNICODE_ISSPACE] (tab to carriage return, the four separators
  U+001C to U+001F, the space, U+0085, U+00A0, U+1680, U+2000 to U+200A,
  U+2028, U+2029, U+202F, U+205F and U+3000). *)
Definition unicode_isspace (n : N) : bool :=
  ((9 <=? n)%N && (n <=? 13)%N) || ((28 <=? n)%N && (n <=? 32)%N)
  || (n =? 133)%N || (n =? 160)%N || (n =? 5760)%N
  || ((8192 <=? n)%N && (n <=? 8202)%N)
  || (n =? 8232)%N || (n =? 8233)%N || (n =? 8239)%N || (n =? 8287)%N
  || (n =? 12288)%N.

(** The characters of a [string] are code points: the strings of the model
  are the Python strings whose code points are below 256, and of the white
  space above the ASCII range they can hold U+0085 and U+00A0. *)
Definition is_space (c : ascii) : bool := unicode_isspace (N_of_ascii c).

Fixpoint lstrip (s : string) : string :=
  match s with
  | EmptyString => EmptyString
  | String c s' => if is_space c then lstrip s' else s
  end.

Fixpoint rstrip (s : string) : string :=
  match s with
  | EmptyString => EmptyString
  | String c s' =>
      match rstrip s' with
      | EmptyString => if is_space c then EmptyString else String c EmptyString
      | r => String c r
      end
  end.

(** [str.strip()] *)
Definition strip (s : string) : string := rstrip (lstrip s).

(** Line 20: [[line.strip() for line in f if line.strip()]]. *)
Definition read_file_paths (lines : list string) : list string :=
  filter (λ s, s ≠ EmptyString) (strip <$> lines).

(** Lines 27-34: the loading loop; [inl path] when [nib.load(path)]
  raised. *)
Fixpoint load_loop (fs : filesystem) (file_paths : list string)
  (images : list image) : string + list image :=
  match file_paths with
  | [] => inr images
  | path :: rest =>
      match volumes fs !! path with
      | Some img => load_loop fs rest (images ++ [img])
      | None => inl path
      end
  end.

(** The printed lines and the way the call ends. *)
Definition load_files (fs : filesystem) (file_list_path : string)
  : list message * outcome (list image) :=
  match text_files fs !! file_list_path with
  | None => ([], Raises OSError)
  | Some lines =>
      let file_paths := read_file_paths lines in
      match file_paths with
      | [] => ([], Raises ValueError)
      | _ =>
          let out := [MsgLoading (length file_paths)] in
          match load_loop fs file_paths [] with
          | inl path => (out ++ [MsgErrorLoading path], Exits 1)
          | inr images =>
              let shapes := img_shape <$> images in
              if 1 <? length (remove_dups shapes)
              then (out ++ MsgDifferentDimensions
                        :: zip_with MsgPathShape file_paths shapes,
                    Exits 1)
              else (out, Returns images)
          end
      end
  end.

(** *** perform_group_analysis *)

Section Analysis.

Variable np_sum : list float → float.
(** [scipy.stats.t.sf(x, df)] and [scipy.stats.norm.isf(p)], both
  applied element by element. *)
Variable t_sf : float → Z → float.
Variable norm_isf : float → float.

(** Lines 88-101: the t statistic of every row. *)
Definition compute_t_values (num_subjects : nat)
    (reshaped_data : list (list float)) : list float :=
  let means := np_mean np_sum <$> reshaped_data in
  let stds := np_std np_sum 1 <$> reshaped_data in
  let se := (λ s, div s (np_sqrt (of_Z (Z.of_nat num_subjects)))) <$> stds in
  let t_values := zip_with div means se in
  nan_to_num zero zero zero <$> t_values.

(** Lines 120-129: the signed z statistic of every t value. *)
Definition compute_z_values (df : Z) (t_values : list float) : list float :=
  let p_values := (λ t, mul (t_sf (np_abs t) df) (of_Z 2)) <$> t_values in
  let z_values := norm_isf <$> p_values in
  let z_values_signed := zip_with mul (np_sign <$> t_values) z_values in
  nan_to_num zero zero zero <$> z_values_signed.

(** [None] stands for an exception: the one [get_fdata] raises on the first
  volume whose data cannot be read, or the one [np.stack] raises. *)
Definition perform_group_analysis (images : list image)
  : option (ndarray * ndarray * Z) :=
  data_list ← mapM get_fdata images;
  '(shp, reshaped_data) ← stack_last data_list;
  let num_subjects := length data_list in
  let df := (Z.of_nat num_subjects - 1)%Z in
  let t_values := compute_t_values num_subjects reshaped_data in
  let t_stat_data := NDArray shp t_values in
  let z_values_signed := compute_z_values df t_values in
  let z_stat_data := NDArray shp z_values_signed in
  Some (t_stat_data, z_stat_data, df).

End Analysis.

(** *** The statistics in the words of the specification

  Second definitions, written from the description of the computation
  and not from the code, to compare [perform_group_analysis] with. *)

(** The values one voxel takes in the K subjects. *)
Definition subject_values (images : list image) (v : nat) : list float :=
  (λ img, default zero (get_fdata img ≫= λ a, flat a !! v)) <$> images.

(** A NaN or an infinity is replaced by 0. *)
Definition suppress (x : float) : float := if is_finite x then x else zero.

Section Statistics.

Variable np_sum : list float → float.
Variable t_sf : float → Z → float.
Variable norm_isf : float → float.

Definition sample_mean (xs : list float) : float :=
  div (np_sum xs) (of_Z (Z.of_nat (length xs))).

(** The sample standard deviation, with denominator n - 1. *)
Definition sample_std (xs : list float) : float :=
  let m := sample_mean xs in
  sqrt (div (np_sum ((λ x, mul (sub x m) (sub x m)) <$> xs))
            (of_Z (Z.of_nat (length xs) - 1))).

(** std / sqrt(K) *)
Definition standard_error (xs : list float) : float :=
  div (sample_std xs) (sqrt (of_Z (Z.of_nat (length xs)))).

(** mean / standard error, suppressed to 0 when it is NaN or infinite. *)
Definition t_statistic (xs : list float) : float :=
  suppress (div (sample_mean xs) (standard_error xs)).

(** p = 2 * sf(|t|, df), z = isf(p), z * sign(t), suppressed to 0 when it is
  NaN or infinite. *)
Definition z_statistic (df : Z) (t : float) : float :=
  let p := mul (of_Z 2) (t_sf (np_abs t) df) in
  let z := norm_isf p in
  suppress (mul z (np_sign t)).

End Statistics.

End GroupAnalysis.


(** ** prepare.py *)

Module Prepare.

(** *** Strings and paths *)

(** [str(n)] for a Python [int]. *)
Definition str_of_Z (n : Z) : string := NilEmpty.string_of_int (Z.to_int n).

(** The format [{n:02d}] on the subject numbers, which are naturals: decimal
    digits, a zero in front of a single one. *)
Definition format_02d (n : nat) : string :=
  let digits := NilEmpty.string_of_uint (Nat.to_uint n) in
  if String.length digits <? 2 then String "0" digits else digits.

Definition startswith (pre s : string) : bool := String.prefix pre s.

Fixpoint endswith_char (c : ascii) (s : string) : bool :=
  match s with
  | EmptyString => false
  | String d EmptyString => Ascii.eqb d c
  | String _ s' => endswith_char c s'
  end.

(** One round of the loop of [posixpath.join]. *)
Definition join_step (path b : string) : string :=
  if startswith "/" b then b
  else if (String.eqb path EmptyString) || endswith_char "/" path
       then path +:+ b
       else path +:+ "/" +:+ b.

(** [os.path.join(a, *p)] *)
Definition os_path_join (a : string) (p : list string) : string :=
  foldl join_step a p.

Fixpoint basename_from (acc p : string) : string :=
  match p with
  | EmptyString => acc
  | String c p' =>
      if Ascii.eqb c "/" then basename_from EmptyString p'
      else basename_from (acc +:+ String c EmptyString) p'
  end.

(** [os.path.basename(p)]: what follows the last slash. *)
Definition os_path_basename (p : string) : string :=
  basename_from EmptyString p.

(** The operator [in] on strings. *)
Fixpoint str_in (pat s : string) : bool :=
  String.prefix pat s ||
  match s with
  | EmptyString => false
  | String _ s' => str_in pat s'
  end.

(** [s] contains [pat] as a substring. *)
Definition substring_of (pat s : string) : Prop :=
  ∃ before after, s = before +:+ pat +:+ after.

(** *** register_to_standard *)

(** Line 22: [[n for n in range(1, 33) if n not in [15, 26]]]. *)
Definition subject_numbers : list nat :=
  filter (λ n, n ∉ [15; 26]) (seq 1 32).

(** How [subprocess.run] ends: the command ran and exited with a status, or
    it could not be started ([OSError]). *)
Inductive run_result := Exited (returncode : Z) | NotStarted.

(** The lines the driver prints, by their format string. *)
Inductive message :=
  | MsgProcessing (subject_id : string)
  | MsgNoContrast (contrast_type subject_id : string)
  | MsgNoTransform (subject_id : string)
  | MsgAlreadyExists (output_file : string)
  | MsgRegistering (contrast_name : string)
  | MsgRegistered (output_file : string)
  | MsgErrorRegistering (contrast_name : string) (returncode : Z).

Global Instance message_eq_dec : EqDecision message.
Proof. solve_decision. Defined.

Section Driver.

(** The machine the driver runs on: its file system and the [flirt]
    executable, seen through the four calls the driver makes. *)
Variable World : Type.
(** [os.makedirs(d, exist_ok=True)]; [None] when it raises. *)
Variable makedirs : World → string → option World.
(** [glob.glob(pattern)] *)
Variable glob : World → string → list string.
(** [os.path.exists(p)] *)
Variable path_exists : World → string → bool.
(** [subprocess.run(cmd)]: the world it leaves and how the command ended. *)
Variable subprocess_run : World → list string → World * run_result.

(** The variables of the loop, with what it has printed and the commands it
    has started, each with the world it was started in. *)
Record state := State {
  world : World;
  registered_files : list string;
  stdout : list message;
  invoked : list (World * list string)
}.

Definition print (m : message) (st : state) : state :=
  State (world st) (registered_files st) (stdout st ++ [m]) (invoked st).

Definition append_registered (output_file : string) (st : state) : state :=
  State (world st) (registered_files st ++ [output_file]) (stdout st)
        (invoked st).

Definition output_path (output_dir subject_id contrast_file : string)
  : string :=
  let contrast_name := os_path_basename contrast_file in
  os_path_join output_dir [subject_id +:+ "_" +:+ contrast_name].

Definition flirt_cmd (contrast_file standard_brain transform_file
    output_file : string) : list string :=
  ["flirt"; "-in"; contrast_file; "-ref"; standard_brain; "-applyxfm";
   "-init"; transform_file; "-out"; output_file]%string.

(** Lines 52-77: the body of the loop over the contrast files.  [None]
    stands for an exception nothing catches. *)
Definition register_file (output_dir standard_brain subject_id
    transform_file : string) (st : state) (contrast_file : string)
  : option state :=
  let contrast_name := os_path_basename contrast_file in
  let output_file := output_path output_dir subject_id contrast_file in
  if path_exists (world st) output_file then
    Some (append_registered output_file
            (print (MsgAlreadyExists output_file) st))
  else
    let cmd :=
      flirt_cmd contrast_file standard_brain transform_file output_file in
    let st := print (MsgRegistering contrast_name) st in
    let '(w, r) := subprocess_run (world st) cmd in
    let st := State w (registered_files st) (stdout st)
                    (invoked st ++ [(world st, cmd)]) in
    match r with
    | NotStarted => None
    | Exited returncode =>
        if bool_decide (returncode = 0%Z)
        then Some (print (MsgRegistered output_file)
                     (append_registered output_file st))
        else Some (print (MsgErrorRegistering contrast_name returncode) st)
    end.

(** Line 51: [for contrast_file in contrast_files]. *)
Fixpoint register_files (output_dir standard_brain subject_id
    transform_file : string) (contrast_files : list string) (st : state)
  : option state :=
  match contrast_files with
  | [] => Some st
  | contrast_file :: rest =>
      st' ← register_file output_dir standard_brain subject_id
              transform_file st contrast_file;
      register_files output_dir standard_brain subject_id transform_file
        rest st'
  end.

Definition subject_id_of (subject_num : nat) : string :=
  "sub-" +:+ format_02d subject_num.

(** Lines 32 and 40: the two glob patterns of a subject. *)
Definition contrast_pattern (input_dir subject_id contrast_type : string)
  : string :=
  os_path_join input_dir [subject_id; "*" +:+ contrast_type +:+ "*.nii.gz"].

Definition transform_pattern (input_dir subject_id : string) : string :=
  os_path_join input_dir [subject_id; "*.mat"%string].

(** Lines 28-77: the body of the loop over the subjects. *)
Definition process_subject (input_dir output_dir standard_brain
    contrast_type : string) (st : state) (subject_num : nat)
  : option state :=
  let subject_id := subject_id_of subject_num in
  let st := print (MsgProcessing subject_id) st in
  let contrast_files :=
    glob (world st) (contrast_pattern input_dir subject_id contrast_type) in
  match contrast_files with
  | [] => Some (print (MsgNoContrast contrast_type subject_id) st)
  | _ =>
      let transform_files :=
        glob (world st) (transform_pattern input_dir subject_id) in
      match transform_files with
      | [] => Some (print (MsgNoTransform subject_id) st)
      | transform_file :: _ =>
          register_files output_dir standard_brain subject_id
            transform_file contrast_files st
      end
  end.

(** Line 27: [for subject_num in subject_numbers]. *)
Fixpoint process_subjects (input_dir output_dir standard_brain
    contrast_type : string) (subjects : list nat) (st : state)
  : option state :=
  match subjects with
  | [] => Some st
  | subject_num :: rest =>
      st' ← process_subject input_dir output_dir standard_brain
              contrast_type st subject_num;
      process_subjects input_dir output_dir standard_brain contrast_type
        rest st'
  end.

(** The state in which the function returns; the value it returns is
    [registered_files] of that state. *)
Definition register_to_standard (w : World) (input_dir output_dir
    standard_brain contrast_type : string) : option state :=
  w ← makedirs w output_dir;
  process_subjects input_dir output_dir standard_brain contrast_type
    subject_numbers (State w [] [] []).

End Driver.

(** *** create_file_list *)

(** Line 92: the test of the filter. *)
Definition matches_contrast (contrast_num : Z) (f : string) : bool :=
  str_in (".cope" +:+ str_of_Z contrast_num) f
  || str_in (".zstat" +:+ str_of_Z contrast_num) f.

(** Lines 97-99: what the loop writes, a path and a newline at a time. *)
Fixpoint write_lines (filtered_files : list string) : string :=
  match filtered_files with
  | [] => EmptyString
  | file_path :: rest =>
      (file_path +:+ String "010" EmptyString) +:+ write_lines rest
  end.

(** The text files of the output directory, by path, and the line the
    function prints: the number of files and the path.  [None] when
    [open(output_file, 'w')] raises, which [can_write] decides. *)
Definition create_file_list (can_write : string → bool)
    (files : gmap string string) (registered_files : list string)
    (output_file : string) (contrast_num : option Z)
  : option (gmap string string * (nat * string)) :=
  let filtered_files :=
    match contrast_num with
    | Some n => List.filter (matches_contrast n) registered_files
    | None => registered_files
    end in
  if can_write output_file
  then Some (<[output_file := write_lines filtered_files]> files,
             (length filtered_files, output_file))
  else None.

End Prepare.


(** * Properties *)

(** ** Facts about binary64 arithmetic *)

Module Float64Facts.

Local Open Scope Z_scope.

Lemma mul_comm (x y : float) : mul x y = mul y x.
Proof.
  destruct x as [sx|sx| |sx mx ex], y as [sy|sy| |sy my ey]; simpl;
    rewrite ?(xorb_comm sx sy); try reflexivity.
  unfold mul; simpl. by rewrite (xorb_comm sy sx), Pos.mul_comm, Z.add_comm.
Qed.

Lemma nan_to_num_finite x :
  is_nan (nan_to_num zero zero zero x) = false ∧
  is_inf (nan_to_num zero zero zero x) = false.
Proof. by destruct x as [|[]| |]. Qed.

Lemma nan_to_num_suppress x :
  nan_to_num zero zero zero x = GroupAnalysis.suppress x.
Proof. by destruct x as [|[]| |]. Qed.

(** Whatever is divided by a zero, the quotient is NaN or infinite. *)
Lemma div_zero_r x y :
  is_zero y = true → nan_to_num zero zero zero (div x y) = zero.
Proof.
  destruct y as [sy| | |]; try done. intros _.
  destruct x as [sx|sx| |sx mx ex]; simpl; try done;
    by destruct (xorb sx sy).
Qed.

(** A zero times anything is a zero or NaN. *)
Lemma mul_zero_l x y :
  is_zero x = true → is_zero (nan_to_num zero zero zero (mul x y)) = true.
Proof. destruct x; try done. intros _. by destruct y. Qed.

Lemma div_zero_pos x y :
  is_zero x = true → is_pos y = true → is_zero (div x y) = true.
Proof. destruct x; try done. intros _. by destruct y as [|[]| |[]]. Qed.

Lemma sqrt_zero x : is_zero x = true → is_zero (sqrt x) = true.
Proof. by destruct x. Qed.

Lemma sub_diag x : is_finite x = true → sub x x = zero.
Proof.
  destruct x as [[]| | |s m e]; try done. intros _.
  unfold sub, SFsub, shl_align. by rewrite Z.min_id, Z.sub_diag.
Qed.

(** *** Rounding a positive number gives a positive number

    The mantissa left after the shifts of [binary_round_aux] is at least 1
    as soon as the number rounded is at least the smallest subnormal. *)

Lemma digits2_pos_lower (m : positive) :
  2 ^ (Zpos (digits2_pos m) - 1) ≤ Zpos m.
Proof.
  induction m as [m IH|m IH|]; simpl digits2_pos; [| |done];
    rewrite Pos2Z.inj_succ;
    replace (Z.succ (Zpos (digits2_pos m)) - 1)
      with (Z.succ (Zpos (digits2_pos m) - 1)) by lia;
    rewrite Z.pow_succ_r by lia; lia.
Qed.

Lemma shr_1_m mrs : 0 ≤ shr_m mrs → shr_m (shr_1 mrs) = shr_m mrs / 2.
Proof.
  destruct mrs as [m r s]; simpl. intros Hm. rewrite <- Z.div2_div.
  by destruct m as [|[p|p|]|p]; try lia.
Qed.

Lemma iter_shr_1_m p mrs :
  0 ≤ shr_m mrs →
  shr_m (SpecFloat.iter_pos shr_1 p mrs) = shr_m mrs / 2 ^ Zpos p.
Proof.
  revert mrs.
  induction p as [p IH|p IH|]; intros mrs Hm; simpl SpecFloat.iter_pos.
  - assert (0 < 2 ^ Zpos p) by (apply Z.pow_pos_nonneg; lia).
    assert (0 ≤ shr_m (shr_1 mrs)) as H1
      by (rewrite shr_1_m by done; apply Z.div_pos; lia).
    assert (0 ≤ shr_m (SpecFloat.iter_pos shr_1 p (shr_1 mrs))) as H2
      by (rewrite IH by done; apply Z.div_pos; lia).
    rewrite (IH _ H2), (IH _ H1), shr_1_m by done.
    rewrite !Z.div_div by lia. f_equal.
    rewrite (Pos2Z.inj_xI p).
    replace (2 * Zpos p + 1) with (1 + Zpos p + Zpos p) by lia.
    rewrite !Z.pow_add_r by lia. change (2 ^ 1) with 2. lia.
  - assert (0 < 2 ^ Zpos p) by (apply Z.pow_pos_nonneg; lia).
    assert (0 ≤ shr_m (SpecFloat.iter_pos shr_1 p mrs)) as H2
      by (rewrite IH by done; apply Z.div_pos; lia).
    rewrite (IH _ H2), (IH _ Hm).
    rewrite !Z.div_div by lia. f_equal.
    rewrite (Pos2Z.inj_xO p).
    replace (2 * Zpos p) with (Zpos p + Zpos p) by lia.
    by rewrite Z.pow_add_r by lia.
  - by rewrite shr_1_m.
Qed.

Lemma shr_fexp_pos m e l mrs e1 :
  emin prec emax ≤ Zpos (digits2_pos m) + e - 1 →
  shr_fexp prec emax (Zpos m) e l = (mrs, e1) →
  1 ≤ shr_m mrs ∧ e ≤ e1 ∧ emin prec emax ≤ e1.
Proof.
  unfold shr_fexp, shr, fexp, emin, prec, emax. simpl Zdigits2.
  intros Hd. pose proof (digits2_pos_lower m) as Hm.
  assert (shr_m (shr_record_of_loc (Zpos m) l) = Zpos m) as Hrec
    by (by destruct l as [|[]]).
  destruct (Z.max _ _ - e) as [|p|p] eqn:Hn; intros [= <- <-];
    rewrite ?Hrec; try lia.
  rewrite iter_shr_1_m by (rewrite Hrec; lia). rewrite Hrec.
  split; [|lia]. apply Z.div_le_lower_bound.
  - apply Z.pow_pos_nonneg; lia.
  - etrans; [|apply Hm]. rewrite Z.mul_1_r. apply Z.pow_le_mono_r; lia.
Qed.

Lemma round_nearest_even_ge m l : m ≤ round_nearest_even m l.
Proof. destruct l as [|[]]; simpl; try lia. destruct (Z.even m); lia. Qed.

Lemma binary_round_aux_pos s m e l :
  emin prec emax ≤ Zpos (digits2_pos m) + e - 1 →
  binary_round_aux prec emax s (Zpos m) e l = S754_infinity s ∨
  ∃ m' e', binary_round_aux prec emax s (Zpos m) e l = S754_finite s m' e'
           ∧ e ≤ e' ∧ emin prec emax ≤ e'.
Proof.
  intros Hd. unfold binary_round_aux.
  destruct (shr_fexp prec emax (Zpos m) e l) as [mrs' e'] eqn:H1.
  apply shr_fexp_pos in H1 as (Hm' & He' & Hmin'); [|done].
  pose proof (round_nearest_even_ge (shr_m mrs') (loc_of_shr_record mrs')).
  destruct (round_nearest_even _ _) as [|q|q]; try lia.
  destruct (shr_fexp prec emax (Zpos q) e' loc_Exact) as [mrs'' e''] eqn:H2.
  apply shr_fexp_pos in H2 as (Hm'' & He'' & Hmin''); [|lia].
  destruct (shr_m mrs'') as [|m''|m'']; try lia.
  destruct (e'' <=? _); [right|left; done].
  exists m'', e''. split_and!; [done|lia|done].
Qed.

(** A positive integer converts to a positive double (or overflows to
    +infinity), with an exponent no smaller than the least one. *)
Lemma of_Z_pos_cases n :
  0 < n →
  of_Z n = S754_infinity false ∨
  ∃ m e, of_Z n = S754_finite false m e ∧ emin prec emax ≤ e.
Proof.
  destruct n as [|p|p]; try lia. intros _.
  unfold of_Z, binary_normalize, binary_round.
  destruct (shl_align p 0 _) as [mz ez] eqn:Hal.
  assert (emin prec emax ≤ Zpos (digits2_pos mz) + ez - 1) as Hd.
  { revert Hal. unfold shl_align, fexp, emin, prec, emax.
    destruct (Z.max _ _ - 0) eqn:Hn; intros [= <- <-]; lia. }
  destruct (binary_round_aux_pos false mz ez loc_Exact Hd)
    as [->|(m' & e' & -> & _ & ?)]; [by left|right; eauto].
Qed.

Lemma of_Z_pos n : 0 < n → is_pos (of_Z n) = true.
Proof.
  intros [->|(m & e & -> & _)]%of_Z_pos_cases; done.
Qed.

Lemma sqrt_finite_pos m e :
  emin prec emax ≤ e → is_pos (sqrt (S754_finite false m e)) = true.
Proof.
  intros He. unfold sqrt, SFsqrt, SFsqrt_core_binary.
  set (e' := Z.min _ (Z.div2 e)).
  assert (emin prec emax ≤ e' ∧ 2 * e' ≤ e) as [He'1 He'2].
  { subst e'. rewrite Z.div2_div. unfold fexp, emin, prec, emax in *.
    pose proof (Z.mul_div_le e 2).
    assert (-1074 ≤ e / 2) by (apply Z.div_le_lower_bound; lia). lia. }
  set (m' := match e - 2 * e' with
             | Z0 => Zpos m
             | Zpos _ => Z.shiftl (Zpos m) (e - 2 * e')
             | Zneg _ => 0
             end).
  assert (1 ≤ m') as Hm'.
  { subst m'. destruct (e - 2 * e') as [|p|p] eqn:Hs; try lia.
    rewrite Z.shiftl_mul_pow2 by lia.
    assert (0 < 2 ^ Zpos p) by (apply Z.pow_pos_nonneg; lia). nia. }
  pose proof (Z.sqrtrem_spec m' ltac:(lia)) as Hsq.
  destruct (Z.sqrtrem m') as [q r]. destruct Hsq as [Hq Hr].
  destruct q as [|q|q]; try lia.
  assert (emin prec emax ≤ Zpos (digits2_pos q) + e' - 1) as Hd by lia.
  set (l := if r =? 0 then _ else _).
  destruct (binary_round_aux_pos false q e' l Hd)
    as [->|(m2 & e2 & -> & _)]; done.
Qed.

(** Multiplying a double by 1 changes nothing. *)
Lemma mul_one_l s m e :
  valid_binary prec emax (S754_finite s m e) = true →
  mul one (S754_finite s m e) = S754_finite s m e.
Proof.
  simpl. unfold bounded, canonical_mantissa. intros [Hc He]%andb_true_iff.
  apply Z.eqb_eq in Hc.
  unfold mul, one, SFmul. cbn [xorb].
  assert ((4503599627370496 * m)%positive = Pos.iter xO m 52) as -> by done.
  unfold binary_round_aux, shr_fexp. cbn [Zdigits2 digits2_pos Pos.iter].
  rewrite !Pos2Z.inj_succ.
  match goal with |- context [fexp prec emax ?a] =>
    replace a with (Zpos (digits2_pos m) + e) by lia end.
  rewrite Hc. replace (e - (-52 + e)) with 52 by lia.
  cbn [shr SpecFloat.iter_pos shr_record_of_loc shr_1 orb shr_m
       loc_of_shr_record round_nearest_even].
  replace (-52 + e + 52) with e by lia. cbn [Zdigits2].
  rewrite Hc, Z.sub_diag.
  cbn [shr shr_record_of_loc shr_m]. by rewrite He.
Qed.

(** The square root of a positive integer is positive. *)
Lemma sqrt_of_Z_pos n : 0 < n → is_pos (sqrt (of_Z n)) = true.
Proof.
  intros [->|(m & e & -> & He)]%of_Z_pos_cases; [done|].
  by apply sqrt_finite_pos.
Qed.

End Float64Facts.


(** ** perform_group_analysis *)

Module GroupAnalysisFacts.

Import GroupAnalysis Float64Facts.

(** *** Inputs to evaluate the analysis on *)

(** A volume of [n] voxels from its values. *)
Definition volume (values : list float) : image :=
  Nifti1Image [length values] (Some values).

Definition half : float := S754_finite false 4503599627370496 (-53).
Definition tenth : float := S754_finite false 7205759403792794 (-56).

(** Two one-voxel volumes holding -1 and 3: mean 1, standard error 2,
    t = 0.5 with one degree of freedom. *)
Definition volumes_m1_3 : list image :=
  [volume [of_Z (-1)]; volume [of_Z 3]].

(** Three one-voxel volumes that all hold 0.1. *)
Definition volumes_tenth : list image := replicate 3 (volume [tenth]).

(** Two two-voxel volumes that both hold 1 and 0. *)
Definition volumes_one_zero : list image :=
  replicate 2 (volume [one; zero]).

(** Stand-ins for scipy's two functions, constant at the values the
    distributions take for t = 0.5 with one degree of freedom:
    sf = 0.3524..., and isf(2 sf) = -0.5383... *)
Definition sf_standin : float → Z → float :=
  λ _ _, S754_finite false 6348569152915068 (-54).
Definition isf_standin : float → float :=
  λ _, S754_finite true 4849038347831395 (-53).

Section Facts.

Variable np_sum : list float → float.
Variable t_sf : float → Z → float.
Variable norm_isf : float → float.

Local Abbreviation perform :=
  (perform_group_analysis np_sum t_sf norm_isf).

Lemma stack_last_Some data_list shp rows :
  stack_last data_list = Some (shp, rows) →
  data_list ≠ [] ∧ Forall (λ b, shape b = shp) data_list ∧
  rows = (λ v, (λ b, default zero (flat b !! v)) <$> data_list)
           <$> seq 0 (numel shp).
Proof.
  destruct data_list as [|a rest]; [done|]. simpl.
  destruct (forallb _ rest) eqn:Hall; [|done]. intros [= <- <-].
  split_and!; [done| |done].
  constructor; [done|]. apply Forall_forall. intros b Hb.
  rewrite forallb_forall in Hall. apply list_elem_of_In in Hb.
  by apply Hall, bool_decide_eq_true in Hb.
Qed.

Lemma stack_last_is_Some data_list shp :
  data_list ≠ [] → Forall (λ b, shape b = shp) data_list →
  is_Some (stack_last data_list).
Proof.
  destruct data_list as [|a rest]; [done|]. intros _ Hall.
  apply Forall_cons in Hall as [<- Hall]. simpl.
  replace (forallb _ rest) with true; [by eexists|].
  symmetry. apply forallb_forall. intros b Hb. apply bool_decide_eq_true.
  rewrite Forall_forall in Hall. by apply Hall, list_elem_of_In.
Qed.

(** The arrays a list comprehension over [get_fdata] gives, when every
    call returns. *)
Lemma mapM_get_fdata images data_list :
  mapM get_fdata images = Some data_list →
  Forall (λ img, is_Some (get_fdata img)) images ∧
  length data_list = length images ∧
  shape <$> data_list = img_shape <$> images ∧
  ∀ v, (λ b, default zero (flat b !! v)) <$> data_list
       = subject_values images v.
Proof.
  intros Hdata. apply mapM_Some in Hdata.
  induction Hdata as [|img a images data_list Ha _ IH]; [done|].
  destruct IH as (Hall & Hlen & Hshape & Hvalues).
  split_and!.
  - constructor; [by rewrite Ha|done].
  - simpl. by rewrite Hlen.
  - rewrite !fmap_cons, Hshape. f_equal. revert Ha. unfold get_fdata.
    destruct (dataobj img); [|done]. by intros [= <-].
  - intros v. rewrite fmap_cons, Hvalues. unfold subject_values.
    rewrite fmap_cons. by rewrite Ha.
Qed.

Lemma mapM_get_fdata_is_Some images :
  Forall (λ img, is_Some (get_fdata img)) images →
  is_Some (mapM get_fdata images).
Proof. intros Hall. by apply mapM_is_Some. Qed.

(** What a returning call has computed. *)
Lemma perform_Some images t z df :
  perform images = Some (t, z, df) →
  ∃ shp,
    images ≠ [] ∧ Forall (λ img, img_shape img = shp) images ∧
    df = (Z.of_nat (length images) - 1)%Z ∧
    t = NDArray shp
          (compute_t_values np_sum (length images)
             (subject_values images <$> seq 0 (numel shp))) ∧
    z = NDArray shp (compute_z_values t_sf norm_isf df (flat t)).
Proof.
  unfold perform_group_analysis.
  destruct (mapM get_fdata images) as [data_list|] eqn:Hdata; [|done].
  apply mapM_get_fdata in Hdata as (_ & Hlen & Hshape & Hvalues).
  cbn [mbind option_bind].
  destruct (stack_last _) as [[shp rows]|] eqn:Hst; [|done].
  simpl. rewrite Hlen. intros [= <- <- <-].
  apply stack_last_Some in Hst as (Hne & Hall & ->).
  exists shp. split_and!; try done.
  - intros ->. by destruct data_list.
  - assert (Forall (λ s, s = shp) (img_shape <$> images)) as Hs.
    { rewrite <- Hshape. by apply Forall_fmap. }
    by apply Forall_fmap in Hs.
  - do 2 f_equal. apply list_fmap_ext. intros _ v _. apply Hvalues.
Qed.

(** A returning call has read the data of every volume. *)
Lemma perform_Some_read images t z df :
  perform images = Some (t, z, df) →
  Forall (λ img, is_Some (get_fdata img)) images.
Proof.
  unfold perform_group_analysis.
  destruct (mapM get_fdata images) as [data_list|] eqn:Hdata; [|done].
  intros _. by apply mapM_get_fdata in Hdata as (? & _).
Qed.

(** The call returns on every non-empty list of volumes of one shape whose
    data can be read. *)
Lemma perform_is_Some images shp :
  images ≠ [] → Forall (λ img, img_shape img = shp) images →
  Forall (λ img, is_Some (get_fdata img)) images →
  is_Some (perform images).
Proof.
  intros Hne Hall Hread. unfold perform_group_analysis.
  destruct (mapM_get_fdata_is_Some images Hread) as [data_list Hdata].
  rewrite Hdata. cbn [mbind option_bind].
  apply mapM_get_fdata in Hdata as (_ & Hlen & Hshape & _).
  destruct (stack_last_is_Some data_list shp) as [[s r] ->].
  - intros ->. by destruct images.
  - assert (Forall (λ s, s = shp) (shape <$> data_list)) as Hs.
    { rewrite Hshape. by apply Forall_fmap. }
    by apply Forall_fmap in Hs.
  - by eexists.
Qed.

Lemma subject_values_length images v :
  length (subject_values images v) = length images.
Proof. unfold subject_values. by rewrite length_fmap. Qed.

Lemma compute_t_values_lookup K rows v :
  compute_t_values np_sum K rows !! v =
  (λ row, nan_to_num zero zero zero
            (div (np_mean np_sum row)
                 (div (np_std np_sum 1 row) (np_sqrt (of_Z (Z.of_nat K))))))
    <$> rows !! v.
Proof.
  unfold compute_t_values.
  rewrite list_lookup_fmap, lookup_zip_with, !list_lookup_fmap.
  by destruct (rows !! v).
Qed.

Lemma compute_z_values_lookup df ts v :
  compute_z_values t_sf norm_isf df ts !! v =
  (λ t, nan_to_num zero zero zero
          (mul (np_sign t) (norm_isf (mul (t_sf (np_abs t) df) (of_Z 2)))))
    <$> ts !! v.
Proof.
  unfold compute_z_values.
  rewrite list_lookup_fmap, lookup_zip_with, !list_lookup_fmap.
  by destruct (ts !! v).
Qed.

(** The t value the call stores for voxel [v]. *)
Lemma perform_t_lookup images t z df v :
  perform images = Some (t, z, df) →
  v < numel (shape t) →
  flat t !! v =
  Some (nan_to_num zero zero zero
          (div (np_mean np_sum (subject_values images v))
               (div (np_std np_sum 1 (subject_values images v))
                    (np_sqrt (of_Z (Z.of_nat (length images))))))).
Proof.
  intros (shp & _ & _ & _ & -> & _)%perform_Some Hv. simpl in *.
  rewrite compute_t_values_lookup, list_lookup_fmap.
  by rewrite lookup_seq_lt.
Qed.

(** With at least one value, numpy's [std] with [ddof=1] is the sample
    standard deviation. *)
Lemma np_std_sample_std xs :
  xs ≠ [] → np_std np_sum 1 xs = sample_std np_sum xs.
Proof.
  intros Hne. unfold np_std, np_var, sample_std, sample_mean, np_sqrt.
  rewrite <- list_fmap_compose.
  replace (Z.max _ 0) with (Z.of_nat (length xs) - 1)%Z; [done|].
  destruct xs; [done|]. simpl length. lia.
Qed.

(** C3.  For every list of K volumes the analysis accepts (so for every
    K >= 2), the t statistic stored for each voxel is the sample mean of the
    voxel's K values divided by their standard error, where the standard
    error is the sample standard deviation (denominator K - 1) divided by
    the square root of K, and a NaN or infinite quotient is replaced by 0;
    in particular t is 0 wherever the standard error is 0. *)
Theorem t_statistic_formula images t z df :
  perform images = Some (t, z, df) →
  flat t = (λ v, t_statistic np_sum (subject_values images v))
             <$> seq 0 (numel (shape t)) ∧
  ∀ v tv,
    flat t !! v = Some tv →
    is_zero (standard_error np_sum (subject_values images v)) = true →
    tv = zero.
Proof.
  intros Hperform.
  assert (∀ v, v < numel (shape t) →
               flat t !! v
               = Some (t_statistic np_sum (subject_values images v)))
    as Hlookup.
  { intros v Hv. rewrite (perform_t_lookup _ _ _ _ _ Hperform Hv). f_equal.
    apply perform_Some in Hperform as (shp & Hne & _).
    rewrite nan_to_num_suppress. unfold t_statistic, standard_error.
    rewrite np_std_sample_std, subject_values_length; [done|].
    unfold subject_values. by destruct images. }
  assert (length (flat t) = numel (shape t)) as Hlen.
  { apply perform_Some in Hperform as (shp & _ & _ & _ & -> & _). simpl.
    unfold compute_t_values.
    rewrite length_fmap, length_zip_with, !length_fmap, length_seq. lia. }
  split.
  - apply list_eq. intros v. rewrite list_lookup_fmap.
    destruct (decide (v < numel (shape t))) as [Hv|Hv].
    + by rewrite Hlookup, lookup_seq_lt.
    + rewrite lookup_seq_ge, lookup_ge_None_2 by lia. done.
  - intros v tv Htv Hse.
    rewrite Hlookup in Htv by (apply lookup_lt_Some in Htv; lia).
    injection Htv as <-. unfold t_statistic.
    rewrite <- nan_to_num_suppress. by apply div_zero_r.
Qed.

Lemma compute_z_values_spec df ts :
  compute_z_values t_sf norm_isf df ts
  = z_statistic t_sf norm_isf df <$> ts.
Proof.
  apply list_eq. intros v.
  rewrite compute_z_values_lookup, list_lookup_fmap.
  destruct (ts !! v) as [tv|]; [|done]. simpl. f_equal.
  rewrite nan_to_num_suppress. unfold z_statistic.
  by rewrite (mul_comm (np_sign tv)), (mul_comm (of_Z 2)).
Qed.

(** C2.  The z statistic array returned is, voxel by voxel, the
    composition t -> p = 2 sf(|t|, df) -> z = isf(p) -> z sign(t) -> 0 if
    NaN or infinite, applied to the t statistic array returned, with the
    degrees of freedom returned. *)
Theorem z_statistic_composition images t z df :
  perform images = Some (t, z, df) →
  z = NDArray (shape t) (z_statistic t_sf norm_isf df <$> flat t).
Proof.
  intros (shp & _ & _ & _ & Ht & ->)%perform_Some.
  rewrite compute_z_values_spec. by rewrite Ht.
Qed.

(** C10.  Every value of the two arrays the analysis returns is finite:
    it is not NaN and it is not an infinity of either sign. *)
Theorem outputs_are_finite images t z df :
  perform images = Some (t, z, df) →
  Forall (λ x, is_nan x = false ∧ is_inf x = false) (flat t) ∧
  Forall (λ x, is_nan x = false ∧ is_inf x = false) (flat z).
Proof.
  intros (shp & _ & _ & _ & -> & ->)%perform_Some. simpl.
  split; apply Forall_fmap, Forall_true; intros x; apply nan_to_num_finite.
Qed.

(** C6.  On K volumes the analysis returns K - 1 degrees of freedom; it
    returns on every non-empty list of volumes of one shape whose data can
    be read. *)
Theorem degrees_of_freedom_K_minus_1 images :
  (images ≠ [] →
   (∃ shp, Forall (λ img, img_shape img = shp) images) →
   Forall (λ img, is_Some (get_fdata img)) images →
   is_Some (perform images)) ∧
  (∀ t z df, perform images = Some (t, z, df) →
             df = (Z.of_nat (length images) - 1)%Z).
Proof.
  split.
  - intros Hne [shp Hall] Hread. by eapply perform_is_Some.
  - by intros t z df (shp & _ & _ & -> & _)%perform_Some.
Qed.

(** C4, amended.  Let K >= 2 volumes hold the same finite value x at a
    voxel.  If the mean of the K copies is computed exactly (it is x) and
    the reduction of K zeros is a zero, then the standard deviation is 0 at
    that voxel and so are the t and the z statistic. *)
Theorem identical_volumes_zero_statistics images t z df v x :
  perform images = Some (t, z, df) →
  2 ≤ length images →
  v < numel (shape t) →
  subject_values images v = replicate (length images) x →
  is_finite x = true →
  sample_mean np_sum (replicate (length images) x) = x →
  is_zero (np_sum (replicate (length images) zero)) = true →
  is_zero (np_std np_sum 1 (subject_values images v)) = true ∧
  (∃ tv, flat t !! v = Some tv ∧ is_zero tv = true) ∧
  (∃ zv, flat z !! v = Some zv ∧ is_zero zv = true).
Proof.
  intros Hperform HK Hv Hrow Hx Hmean Hsum.
  assert (is_zero (np_std np_sum 1 (subject_values images v)) = true)
    as Hstd.
  { rewrite Hrow. unfold np_std, np_var, np_sqrt.
    unfold sample_mean in Hmean. rewrite Hmean, !fmap_replicate.
    rewrite (sub_diag x Hx), length_replicate.
    apply sqrt_zero, div_zero_pos; [done|]. apply of_Z_pos. lia. }
  assert (flat t !! v = Some zero) as Ht.
  { rewrite (perform_t_lookup _ _ _ _ _ Hperform Hv). f_equal.
    apply div_zero_r, div_zero_pos; [done|].
    apply sqrt_of_Z_pos. lia. }
  split_and!; [done|by exists zero|].
  apply perform_Some in Hperform as (shp & _ & _ & _ & _ & ->). simpl.
  rewrite compute_z_values_lookup, Ht.
  eexists. split; [reflexivity|]. cbv beta. by apply mul_zero_l.
Qed.

End Facts.

(** C1, evaluated.  On the volumes holding -1 and 3 the t statistic is 0.5
    and the z statistic is [isf(2 sf(0.5, 1))] itself, whenever scipy
    returns a negative double there: t is positive and z negative. *)
Theorem sign_restoration_mismatch t_sf norm_isf m e :
  norm_isf (mul (t_sf half 1%Z) (of_Z 2)) = S754_finite true m e →
  valid_binary prec emax (S754_finite true m e) = true →
  perform_group_analysis seq_sum t_sf norm_isf volumes_m1_3 =
    Some (NDArray [1] [half], NDArray [1] [S754_finite true m e], 1%Z)
  ∧ is_pos half = true ∧ is_neg (S754_finite true m e) = true.
Proof.
  intros Hisf Hvalid. split; [|done].
  transitivity
    (Some (NDArray [1] [half],
           NDArray [1] [nan_to_num zero zero zero
                          (mul one (norm_isf (mul (t_sf half 1%Z) (of_Z 2))))],
           1%Z)).
  - vm_compute. reflexivity.
  - by rewrite Hisf, mul_one_l.
Qed.

(** *** The theorems at concrete volumes *)

(** What the analysis returns on the volumes holding -1 and 3, with the
    stand-ins for scipy. *)
Definition t_m1_3 : ndarray := NDArray [1] [half].
Definition z_m1_3 : ndarray :=
  NDArray [1] [S754_finite true 4849038347831395 (-53)].

Lemma perform_m1_3 :
  perform_group_analysis seq_sum sf_standin isf_standin volumes_m1_3
  = Some (t_m1_3, z_m1_3, 1%Z).
Proof. vm_compute. reflexivity. Defined.

Lemma t_statistic_formula_witness :
  perform_group_analysis seq_sum sf_standin isf_standin volumes_m1_3
  = Some (t_m1_3, z_m1_3, 1%Z) ∧
  flat t_m1_3
  = (λ v, t_statistic seq_sum (subject_values volumes_m1_3 v))
      <$> seq 0 (numel (shape t_m1_3)).
Proof.
  split; [exact perform_m1_3|].
  exact (proj1 (t_statistic_formula seq_sum sf_standin isf_standin
                  volumes_m1_3 t_m1_3 z_m1_3 1%Z perform_m1_3)).
Defined.

Lemma z_statistic_composition_witness :
  perform_group_analysis seq_sum sf_standin isf_standin volumes_m1_3
  = Some (t_m1_3, z_m1_3, 1%Z) ∧
  z_m1_3
  = NDArray (shape t_m1_3)
      (z_statistic sf_standin isf_standin 1%Z <$> flat t_m1_3).
Proof.
  split; [exact perform_m1_3|].
  exact (z_statistic_composition seq_sum sf_standin isf_standin
           volumes_m1_3 t_m1_3 z_m1_3 1%Z perform_m1_3).
Defined.

Lemma outputs_are_finite_witness :
  perform_group_analysis seq_sum sf_standin isf_standin volumes_m1_3
  = Some (t_m1_3, z_m1_3, 1%Z) ∧
  Forall (λ x, is_nan x = false ∧ is_inf x = false) (flat t_m1_3) ∧
  Forall (λ x, is_nan x = false ∧ is_inf x = false) (flat z_m1_3).
Proof.
  split; [exact perform_m1_3|].
  exact (outputs_are_finite seq_sum sf_standin isf_standin volumes_m1_3
           t_m1_3 z_m1_3 1%Z perform_m1_3).
Defined.

Lemma degrees_of_freedom_witness :
  perform_group_analysis seq_sum sf_standin isf_standin volumes_m1_3
  = Some (t_m1_3, z_m1_3, 1%Z) ∧
  1%Z = (Z.of_nat (length volumes_m1_3) - 1)%Z.
Proof.
  split; [exact perform_m1_3|].
  exact (proj2 (degrees_of_freedom_K_minus_1 seq_sum sf_standin isf_standin
                  volumes_m1_3) t_m1_3 z_m1_3 1%Z perform_m1_3).
Defined.

Lemma sign_restoration_mismatch_witness :
  isf_standin (mul (sf_standin half 1%Z) (of_Z 2))
  = S754_finite true 4849038347831395 (-53) ∧
  valid_binary prec emax (S754_finite true 4849038347831395 (-53)) = true ∧
  perform_group_analysis seq_sum sf_standin isf_standin volumes_m1_3
  = Some (NDArray [1] [half],
          NDArray [1] [S754_finite true 4849038347831395 (-53)], 1%Z).
Proof.
  split; [reflexivity|]. split; [reflexivity|].
  exact (proj1 (sign_restoration_mismatch sf_standin isf_standin
                  4849038347831395 (-53) eq_refl eq_refl)).
Defined.

(** Two volumes holding 1 and 0: the means are exact. *)
Definition t_one_zero : ndarray := NDArray [2] [zero; zero].
Definition z_one_zero : ndarray :=
  NDArray [2] [S754_zero true; S754_zero true].

Lemma perform_one_zero :
  perform_group_analysis seq_sum sf_standin isf_standin volumes_one_zero
  = Some (t_one_zero, z_one_zero, 1%Z).
Proof. vm_compute. reflexivity. Defined.

Lemma identical_volumes_zero_statistics_witness :
  perform_group_analysis seq_sum sf_standin isf_standin volumes_one_zero
  = Some (t_one_zero, z_one_zero, 1%Z) ∧
  subject_values volumes_one_zero 0 = replicate 2 one ∧
  sample_mean seq_sum (replicate 2 one) = one ∧
  is_zero (np_std seq_sum 1 (subject_values volumes_one_zero 0)) = true ∧
  (∃ tv, flat t_one_zero !! 0 = Some tv ∧ is_zero tv = true) ∧
  (∃ zv, flat z_one_zero !! 0 = Some zv ∧ is_zero zv = true).
Proof.
  split; [exact perform_one_zero|].
  split; [reflexivity|]. split; [vm_compute; reflexivity|].
  refine (identical_volumes_zero_statistics seq_sum sf_standin isf_standin
            volumes_one_zero t_one_zero z_one_zero 1%Z 0 one
            perform_one_zero _ _ eq_refl eq_refl _ eq_refl).
  - simpl; lia.
  - simpl; lia.
  - vm_compute; reflexivity.
Defined.

(** C4, as stated, fails.  Three volumes that all hold 0.1: the sum of the
    three is 0.30000000000000004 and the mean 0.10000000000000002, so the
    standard deviation is 1.6996749443881478e-17 and the t statistic
    1.0190482676041238e16, neither of them 0. *)
Lemma identical_tenths_nonzero_statistics :
  volumes_tenth = [volume [tenth]; volume [tenth]; volume [tenth]] ∧
  np_std seq_sum 1 (subject_values volumes_tenth 0)
  = S754_finite false 5515760546423086 (-108) ∧
  is_zero (np_std seq_sum 1 (subject_values volumes_tenth 0)) = false ∧
  ∃ z, perform_group_analysis seq_sum sf_standin isf_standin volumes_tenth
       = Some (NDArray [1] [S754_finite false 5095241338020619 1], z, 2%Z)
       ∧ is_zero (S754_finite false 5095241338020619 1) = false.
Proof.
  split; [reflexivity|]. split; [vm_compute; reflexivity|].
  split; [vm_compute; reflexivity|].
  eexists. split; [|reflexivity]. vm_compute. reflexivity.
Qed.

End GroupAnalysisFacts.


(** ** load_files *)

Module LoadFilesFacts.

Import GroupAnalysis.

(** The paths the manifest yields: the stripped non-blank lines of the
    file; none when the file cannot be opened. *)
Definition manifest_paths (fs : filesystem) (file_list_path : string)
  : list string :=
  match text_files fs !! file_list_path with
  | Some lines => read_file_paths lines
  | None => []
  end.

(** A line of white space only. *)
Fixpoint blank (s : string) : bool :=
  match s with
  | EmptyString => true
  | String c s' => is_space c && blank s'
  end.

(** [images] are the volumes the paths load to, in order. *)
Definition loads (fs : filesystem) (paths : list string)
    (images : list image) : Prop :=
  Forall2 (λ path img, volumes fs !! path = Some img) paths images.

(** Two of the volumes differ in shape. *)
Definition mixed_shapes (images : list image) : Prop :=
  ∃ a b, a ∈ images ∧ b ∈ images ∧ img_shape a ≠ img_shape b.

(** A manifest of two volumes of shapes (2,) and (3,), and one of two
    volumes of shape (2,). *)
Definition vol2 : image := Nifti1Image [2] (Some [zero; one]).
Definition vol3 : image := Nifti1Image [3] (Some [zero; one; zero]).

Definition fs_example : filesystem :=
  FileSystem
    {[ "mixed.txt"%string := [" a.nii.gz"; ""; "b.nii.gz "]%string;
       "good.txt"%string := ["a.nii.gz"; "c.nii.gz"]%string ]}
    {[ "a.nii.gz"%string := vol2; "b.nii.gz"%string := vol3;
       "c.nii.gz"%string := vol2 ]}.

Lemma lstrip_blank s : blank s = true → lstrip s = EmptyString.
Proof.
  induction s as [|c s IH]; [done|]. simpl.
  intros [-> Hs]%andb_true_iff. auto.
Qed.

Lemma rstrip_empty s : rstrip s = EmptyString → blank s = true.
Proof.
  induction s as [|c s IH]; [done|]. simpl.
  destruct (rstrip s); [|done]. destruct (is_space c); [|done]. auto.
Qed.

Lemma lstrip_empty s : lstrip s = EmptyString → blank s = true.
Proof.
  induction s as [|c s IH]; [done|]. simpl.
  destruct (is_space c); [|done]. auto.
Qed.

Lemma lstrip_head s :
  lstrip s = EmptyString ∨
  ∃ c s', lstrip s = String c s' ∧ is_space c = false.
Proof.
  induction s as [|c s IH]; [by left|]. simpl.
  destruct (is_space c) eqn:Hc; [done|]. right. eauto.
Qed.

(** A line strips to nothing exactly when it is blank. *)
Lemma strip_empty_iff s : strip s = EmptyString ↔ blank s = true.
Proof.
  unfold strip. split.
  - intros Hr%rstrip_empty.
    destruct (lstrip_head s) as [He|(c & s' & He & Hc)].
    + by apply lstrip_empty.
    + rewrite He in Hr. simpl in Hr. by rewrite Hc in Hr.
  - intros Hs. by rewrite lstrip_blank.
Qed.

Lemma read_file_paths_nil lines :
  read_file_paths lines = [] ↔ Forall (λ l, blank l = true) lines.
Proof.
  unfold read_file_paths. induction lines as [|l lines IH]; [done|].
  rewrite fmap_cons, filter_cons, Forall_cons, <- IH, <- strip_empty_iff.
  destruct (decide (strip l ≠ EmptyString)) as [Hne|Heq%dec_stable].
  - split; [done|]. by intros [? _].
  - tauto.
Qed.

Lemma load_loop_inr fs paths acc images :
  load_loop fs paths acc = inr images →
  ∃ loaded, images = acc ++ loaded ∧ loads fs paths loaded.
Proof.
  revert acc. induction paths as [|path rest IH]; intros acc; simpl.
  - intros [= <-]. exists []. rewrite app_nil_r. split; [done|constructor].
  - destruct (volumes fs !! path) as [img|] eqn:Himg; [|done].
    intros (loaded & -> & Hl)%IH. exists (img :: loaded).
    rewrite <- app_assoc. split; [done|]. by constructor.
Qed.

Lemma load_loop_inl fs paths acc path :
  load_loop fs paths acc = inl path →
  path ∈ paths ∧ volumes fs !! path = None.
Proof.
  revert acc. induction paths as [|q rest IH]; intros acc; simpl; [done|].
  destruct (volumes fs !! q) as [img|] eqn:Himg.
  - intros [? ?]%IH. split; [by right|done].
  - intros [= <-]. split; [by left|done].
Qed.

Lemma loads_is_Some fs paths images path :
  loads fs paths images → path ∈ paths → is_Some (volumes fs !! path).
Proof.
  intros Hl (i & Hi)%list_elem_of_lookup.
  destruct (Forall2_lookup_l _ _ _ _ _ Hl Hi) as (img & _ & ->). by eexists.
Qed.

Lemma loads_inj fs paths images images' :
  loads fs paths images → loads fs paths images' → images = images'.
Proof.
  intros Hl. revert images'.
  induction Hl as [|path img paths images Hp _ IH]; intros images' Hl'.
  - by apply Forall2_nil_inv_l in Hl'.
  - apply Forall2_cons_inv_l in Hl' as (img' & rest & Hp' & Hl' & ->).
    rewrite Hp in Hp'. injection Hp' as <-. f_equal. by apply IH.
Qed.

(** The test [len(set(shapes)) > 1]. *)
Lemma remove_dups_mixed `{EqDecision A} (l : list A) :
  (1 <? length (remove_dups l)) = true ↔ ∃ a b, a ∈ l ∧ b ∈ l ∧ a ≠ b.
Proof.
  rewrite Nat.ltb_lt. pose proof (NoDup_remove_dups l) as Hnd. split.
  - destruct (remove_dups l) as [|a [|b k]] eqn:Hk; simpl; try lia.
    intros _. exists a, b.
    rewrite <- !(elem_of_remove_dups l), Hk. split_and!.
    + by left.
    + right. by left.
    + apply NoDup_cons in Hnd as [Ha _]. intros ->. apply Ha. by left.
  - intros (a & b & Ha & Hb & Hab).
    rewrite <- (elem_of_remove_dups l) in Ha, Hb.
    destruct (remove_dups l) as [|c [|d k]]; simpl; try lia.
    + by apply elem_of_nil in Ha.
    + apply list_elem_of_singleton in Ha, Hb. congruence.
Qed.

Lemma mixed_shapes_iff images :
  (1 <? length (remove_dups (img_shape <$> images))) = true ↔
  mixed_shapes images.
Proof.
  rewrite remove_dups_mixed. unfold mixed_shapes. split.
  - intros (sa & sb & (a & -> & Ha)%list_elem_of_fmap
                     & (b & -> & Hb)%list_elem_of_fmap & Hne). eauto.
  - intros (a & b & Ha & Hb & Hne).
    exists (img_shape a), (img_shape b).
    split_and!; [by apply list_elem_of_fmap_2..|done].
Qed.

(** C5.  [load_files] ends fatally, returning no list, in exactly three
    cases: the manifest yields no path (it cannot be opened, or all its
    lines are blank), some path does not load, or the loaded volumes do not
    all have one shape.  Otherwise it returns the loaded volumes.  When the
    shapes differ, it exits with status 1 after printing every path with
    its shape. *)
Theorem load_files_fatal_cases fs file_list_path :
  let paths := manifest_paths fs file_list_path in
  let printed := (load_files fs file_list_path).1 in
  let result := (load_files fs file_list_path).2 in
  (fatal result ↔
     paths = [] ∨
     (∃ path, path ∈ paths ∧ volumes fs !! path = None) ∨
     (∃ images, loads fs paths images ∧ mixed_shapes images)) ∧
  (¬ fatal result →
     ∃ images, result = Returns images ∧ loads fs paths images) ∧
  (∀ images, paths ≠ [] → loads fs paths images → mixed_shapes images →
     result = Exits 1 ∧
     ∀ i path img, paths !! i = Some path → images !! i = Some img →
                   MsgPathShape path (img_shape img) ∈ printed) ∧
  (paths = [] ↔
     text_files fs !! file_list_path = None ∨
     ∃ lines, text_files fs !! file_list_path = Some lines ∧
              Forall (λ l, blank l = true) lines).
Proof.
  unfold manifest_paths, load_files.
  destruct (text_files fs !! file_list_path) as [lines|] eqn:Hfile; simpl.
  2:{ split_and!; [by intuition|by intros []|done|by intuition]. }
  assert (read_file_paths lines = [] ↔
          Some lines = None ∨
          ∃ lines', Some lines = Some lines' ∧
                    Forall (λ l, blank l = true) lines') as Hblank.
  { rewrite read_file_paths_nil. split; [by eauto|].
    by intros [?|(? & [= <-] & ?)]. }
  destruct (read_file_paths lines) as [|q qs] eqn:Hpaths.
  { simpl. split_and!; [by intuition|by intros []|done|done]. }
  cbv beta iota zeta.
  assert (q :: qs ≠ []) as Hne by done.
  assert (q :: qs = [] ↔
          Some lines = None ∨
          ∃ lines', Some lines = Some lines' ∧
                    Forall (λ l, blank l = true) lines') as Hempty
    by (split; [done|by intros ?%Hblank]).
  clear Hblank. generalize dependent (q :: qs). intros paths _ Hne Hempty.
  destruct (load_loop fs paths []) as [path|images] eqn:Hloop.
  - apply load_loop_inl in Hloop as [Hin Hnone]. simpl.
    split_and!; [|by intros []| |done].
    + split; [|done]. intros _. right. left. eauto.
    + intros images _ Hl _.
      destruct (loads_is_Some _ _ _ _ Hl Hin) as [img Himg]. congruence.
  - apply load_loop_inr in Hloop as (loaded & -> & Hl). simpl in *.
    destruct (1 <? length _) eqn:Hmixed; simpl.
    + apply mixed_shapes_iff in Hmixed.
      split_and!; [|by intros []| |done].
      * split; [|done]. intros _. right. right. eauto.
      * intros images _ Hl' _. rewrite (loads_inj _ _ _ _ Hl' Hl).
        split; [done|]. intros i path img Hpath Himg.
        right. right. apply elem_of_lookup_zip_with.
        exists i, path, (img_shape img).
        split_and!; [done|done|by rewrite list_lookup_fmap, Himg].
    + assert (¬ mixed_shapes loaded) as Hsame.
      { rewrite <- mixed_shapes_iff. by rewrite Hmixed. }
      split_and!; [|eauto| |done].
      * split; [done|]. intros [?|[(path & Hin & Hnone)|(images & Hl' & ?)]].
        -- done.
        -- destruct (loads_is_Some _ _ _ _ Hl Hin). congruence.
        -- by rewrite (loads_inj _ _ _ _ Hl' Hl) in *.
      * intros images _ Hl' ?. by rewrite (loads_inj _ _ _ _ Hl' Hl) in *.
Qed.

(** The theorem on a manifest of two volumes of different shapes. *)
Lemma load_files_fatal_cases_witness :
  manifest_paths fs_example "mixed.txt" = ["a.nii.gz"; "b.nii.gz"]%string ∧
  loads fs_example (manifest_paths fs_example "mixed.txt") [vol2; vol3] ∧
  mixed_shapes [vol2; vol3] ∧
  (load_files fs_example "mixed.txt").2 = Exits 1 ∧
  ∀ i path img,
    manifest_paths fs_example "mixed.txt" !! i = Some path →
    [vol2; vol3] !! i = Some img →
    MsgPathShape path (img_shape img) ∈ (load_files fs_example "mixed.txt").1.
Proof.
  assert (manifest_paths fs_example "mixed.txt"
          = ["a.nii.gz"; "b.nii.gz"]%string) as Hpaths
    by (vm_compute; reflexivity).
  assert (loads fs_example (manifest_paths fs_example "mixed.txt")
            [vol2; vol3]) as Hloads.
  { rewrite Hpaths. repeat constructor; vm_compute; reflexivity. }
  assert (mixed_shapes [vol2; vol3]) as Hmixed.
  { exists vol2, vol3. split; [by left|]. split; [right; by left|done]. }
  split; [exact Hpaths|]. split; [exact Hloads|]. split; [exact Hmixed|].
  refine (proj1 (proj2 (proj2 (load_files_fatal_cases fs_example
                                 "mixed.txt"))) [vol2; vol3] _ Hloads
            Hmixed).
  by rewrite Hpaths.
Defined.

End LoadFilesFacts.


(** ** Facts about string concatenation *)

Module StringFacts.

Lemma str_app_cons c a b : String c a +:+ b = String c (a +:+ b).
Proof. done. Qed.

Lemma str_app_assoc a b c : (a +:+ b) +:+ c = a +:+ (b +:+ c).
Proof. induction a as [|x a IH]; [done|]. by rewrite !str_app_cons, IH. Qed.

Lemma str_app_nil_r a : a +:+ EmptyString = a.
Proof. induction a as [|x a IH]; [done|]. by rewrite str_app_cons, IH. Qed.

Lemma str_app_inj_length a b x y :
  a +:+ x = b +:+ y → String.length a = String.length b → a = b ∧ x = y.
Proof.
  revert b. induction a as [|c a IH]; intros [|d b]; try done.
  rewrite !str_app_cons. intros [= -> H] [= Hlen].
  destruct (IH b H Hlen) as [-> ->]. done.
Qed.

End StringFacts.


(** ** create_file_list *)

Module ManifestFacts.

Import Prepare StringFacts.

(** The line end [create_file_list] writes after every path. *)
Definition newline : string := String "010" EmptyString.

Lemma prefix_correct pre s :
  String.prefix pre s = true ↔ ∃ rest, s = pre +:+ rest.
Proof.
  revert s. induction pre as [|c pre IH]; intros s; simpl.
  - split; [by eauto|]. by destruct s.
  - destruct s as [|d s]; simpl.
    + split; [done|]. by intros (rest & ?).
    + destruct (ascii_dec c d) as [->|Hne].
      * rewrite IH.
        split; intros (rest & Hs); exists rest;
          change (String d pre +:+ rest) with (String d (pre +:+ rest)) in *;
          congruence.
      * split; [done|]. intros (rest & Hs).
        change (String c pre +:+ rest) with (String c (pre +:+ rest)) in Hs.
        congruence.
Qed.

(** The operator [in] decides the substring relation. *)
Lemma str_in_correct pat s : str_in pat s = true ↔ substring_of pat s.
Proof.
  unfold substring_of. split.
  - induction s as [|c s IH]; cbn [str_in].
    + rewrite orb_false_r. intros (rest & ->)%prefix_correct.
      by exists EmptyString, rest.
    + intros [(rest & ->)%prefix_correct|Hin]%orb_true_iff.
      * by exists EmptyString, rest.
      * destruct (IH Hin) as (before & after & ->).
        by exists (String c before), after.
  - intros (before & after & ->).
    induction before as [|c before IH].
    + change (EmptyString +:+ pat +:+ after) with (pat +:+ after).
      assert (String.prefix pat (pat +:+ after) = true) as Hp
        by (apply prefix_correct; eauto).
      destruct (pat +:+ after); cbn [str_in]; by rewrite Hp.
    + change (String c before +:+ pat +:+ after)
        with (String c (before +:+ pat +:+ after)).
      cbn [str_in]. rewrite IH. apply orb_true_r.
Qed.

(** The file the write loop produces is its lines one after the other. *)
Lemma write_lines_concat paths :
  write_lines paths = String.concat "" ((λ path, path +:+ newline) <$> paths).
Proof.
  induction paths as [|path rest IH]; [done|].
  cbn [write_lines]. rewrite IH, fmap_cons. fold newline.
  destruct rest as [|path' rest]; [apply str_app_nil_r|done].
Qed.

(** C7.  With a contrast number N, the manifest written holds the paths of
    the input list that contain [.cope<N>] or [.zstat<N>], each followed by
    a newline, in the order of the input list, and nothing else; the other
    files are left as they were. *)
Theorem contrast_manifest_contents can_write files registered_files
    output_file N :
  can_write output_file = true →
  ∃ test : string → bool,
    (∀ f, test f = true ↔
          substring_of (".cope" +:+ str_of_Z N) f ∨
          substring_of (".zstat" +:+ str_of_Z N) f) ∧
    ∃ files',
      create_file_list can_write files registered_files output_file (Some N)
      = Some (files',
              (length (List.filter test registered_files), output_file)) ∧
      files' !! output_file
      = Some (String.concat ""
                ((λ path, path +:+ newline)
                   <$> List.filter test registered_files)) ∧
      ∀ p, p ≠ output_file → files' !! p = files !! p.
Proof.
  intros Hw. exists (matches_contrast N). split.
  - intros f. unfold matches_contrast.
    by rewrite orb_true_iff, !str_in_correct.
  - unfold create_file_list. rewrite Hw. eexists. split_and!; [done|..].
    + by rewrite lookup_insert_eq, write_lines_concat.
    + intros p Hp. by rewrite lookup_insert_ne.
Qed.

(** The theorem on three registered paths and contrast 1. *)
Definition registered_example : list string :=
  ["out/sub-01_a.cope1.nii.gz"; "out/sub-01_a.cope2.nii.gz";
   "out/sub-02_b.zstat1.nii.gz"]%string.

Lemma contrast_manifest_contents_witness :
  (λ _ : string, true) "cope1_files.txt"%string = true ∧
  ∃ test : string → bool,
    (∀ f, test f = true ↔
          substring_of (".cope" +:+ str_of_Z 1) f ∨
          substring_of (".zstat" +:+ str_of_Z 1) f) ∧
    ∃ files',
      create_file_list (λ _, true) ∅ registered_example "cope1_files.txt"
        (Some 1%Z)
      = Some (files',
              (length (List.filter test registered_example),
               "cope1_files.txt"%string)) ∧
      files' !! "cope1_files.txt"%string
      = Some (String.concat ""
                ((λ path, path +:+ newline)
                   <$> List.filter test registered_example)) ∧
      ∀ p, p ≠ "cope1_files.txt"%string →
           files' !! p = (∅ : gmap string string) !! p.
Proof.
  split; [reflexivity|].
  exact (contrast_manifest_contents (λ _, true) ∅ registered_example
           "cope1_files.txt" 1%Z eq_refl).
Defined.

End ManifestFacts.


(** ** register_to_standard *)

Module RegistrationFacts.

Import Prepare.


(** The argument after [-out] of a command the driver built. *)
Definition out_of (cmd : list string) : option string := last cmd.

Section Driver.

Context {World : Type}.
Variable makedirs : World → string → option World.
Variable glob : World → string → list string.
Variable path_exists : World → string → bool.
Variable subprocess_run : World → list string → World * run_result.

Local Abbreviation register_file :=
  (register_file World path_exists subprocess_run).
Local Abbreviation register_files :=
  (register_files World path_exists subprocess_run).
Local Abbreviation process_subject :=
  (process_subject World glob path_exists subprocess_run).
Local Abbreviation process_subjects :=
  (process_subjects World glob path_exists subprocess_run).
Local Abbreviation register_to_standard :=
  (register_to_standard World makedirs glob path_exists subprocess_run).


(** What holds of every state the driver goes through: each command was
    run in a world where its output file did not exist, and each output
    reported as existing is in the list of registered files. *)
Definition reuse_invariant (st : state World) : Prop :=
  (∀ w cmd, (w, cmd) ∈ invoked World st →
            ∃ output_file, out_of cmd = Some output_file ∧
                           path_exists w output_file = false) ∧
  (∀ output_file, MsgAlreadyExists output_file ∈ stdout World st →
                  output_file ∈ registered_files World st).


(** *** The loop over the contrast files *)

Lemma register_file_exists output_dir standard_brain subject_id
    transform_file st contrast_file :
  path_exists (world World st)
    (output_path output_dir subject_id contrast_file) = true →
  register_file output_dir standard_brain subject_id transform_file st
    contrast_file
  = Some (State World (world World st)
            (registered_files World st
               ++ [output_path output_dir subject_id contrast_file])
            (stdout World st
               ++ [MsgAlreadyExists
                     (output_path output_dir subject_id contrast_file)])
            (invoked World st)).
Proof. intros Hex. unfold Prepare.register_file. by rewrite Hex. Qed.




Lemma register_file_invariant output_dir standard_brain subject_id
    transform_file st contrast_file st' :
  reuse_invariant st →
  register_file output_dir standard_brain subject_id transform_file st
    contrast_file = Some st' →
  reuse_invariant st'.
Proof.
  intros [Hinv Hreg]. unfold Prepare.register_file.
  destruct (path_exists _ _) eqn:Hex.
  - intros [= <-]. split; simpl; [done|].
    intros out [Hin|[= ->]%list_elem_of_singleton]%elem_of_app;
      apply elem_of_app; [left; auto|right; by left].
  - simpl. destruct (subprocess_run _ _) as [w' [code|]] eqn:Hrun; [|done].
    assert (∀ w cmd,
      (w, cmd) ∈ invoked World st
                 ++ [(world World st,
                      flirt_cmd contrast_file standard_brain transform_file
                        (output_path output_dir subject_id contrast_file))] →
      ∃ output_file, out_of cmd = Some output_file ∧
                     path_exists w output_file = false) as Hinv'.
    { intros w cmd [Hin|[= -> ->]%list_elem_of_singleton]%elem_of_app;
        [auto|]. eauto. }
    destruct (bool_decide _); intros [= <-]; (split; simpl; [done|]).
    + intros out [[Hin|Hin%list_elem_of_singleton]%elem_of_app
                   |Hin%list_elem_of_singleton]%elem_of_app; try done.
      apply elem_of_app. left. auto.
    + intros out [[Hin|Hin%list_elem_of_singleton]%elem_of_app
                   |Hin%list_elem_of_singleton]%elem_of_app; try done.
      auto.
Qed.

Lemma register_files_invariant output_dir standard_brain subject_id
    transform_file contrast_files st st' :
  reuse_invariant st →
  register_files output_dir standard_brain subject_id transform_file
    contrast_files st = Some st' →
  reuse_invariant st'.
Proof.
  revert st. induction contrast_files as [|f rest IH]; intros st Hinv; simpl.
  - by intros [= <-].
  - destruct (register_file _ _ _ _ st f) as [st1|] eqn:Hstep; [|done].
    simpl. apply IH. by eapply register_file_invariant.
Qed.

(** *** The loop over the subjects *)

Lemma print_invariant m st :
  (∀ output_file, m ≠ MsgAlreadyExists output_file) →
  reuse_invariant st → reuse_invariant (print World m st).
Proof.
  intros Hm [Hinv Hreg]. split; simpl; [done|].
  intros out [Hin|Hin%list_elem_of_singleton]%elem_of_app; [auto|].
  by destruct (Hm out).
Qed.

Lemma process_subject_invariant input_dir output_dir standard_brain
    contrast_type st subject_num st' :
  reuse_invariant st →
  process_subject input_dir output_dir standard_brain contrast_type st
    subject_num = Some st' →
  reuse_invariant st'.
Proof.
  intros Hinv. unfold Prepare.process_subject.
  apply (print_invariant (MsgProcessing (subject_id_of subject_num)))
    in Hinv; [|done].
  destruct (glob _ (contrast_pattern _ _ _)) as [|f fs].
  { intros [= <-]. by apply print_invariant. }
  destruct (glob _ (transform_pattern _ _)) as [|tf tfs].
  { intros [= <-]. by apply print_invariant. }
  by apply register_files_invariant.
Qed.

Lemma process_subjects_invariant input_dir output_dir standard_brain
    contrast_type subjects st st' :
  reuse_invariant st →
  process_subjects input_dir output_dir standard_brain contrast_type
    subjects st = Some st' →
  reuse_invariant st'.
Proof.
  revert st. induction subjects as [|n rest IH]; intros st Hinv; simpl.
  - by intros [= <-].
  - destruct (process_subject _ _ _ _ st n) as [st1|] eqn:Hstep; [|done].
    simpl. apply IH. by eapply process_subject_invariant.
Qed.



(** *** A contrast file whose output is in place *)

Section Reuse.

Variables input_dir output_dir standard_brain contrast_type : string.
Variable n : nat.
Variable contrast_file : string.

(** [glob] finds the contrast file of subject [n] and a transformation
    matrix for it, and the output file of the contrast file exists. *)
Definition output_in_place (w : World) : Prop :=
  contrast_file
  ∈ glob w (contrast_pattern input_dir (subject_id_of n) contrast_type) ∧
  glob w (transform_pattern input_dir (subject_id_of n)) ≠ [] ∧
  path_exists w (output_path output_dir (subject_id_of n) contrast_file)
  = true.

(** The commands leave it so. *)
Definition kept_in_place : Prop :=
  ∀ w cmd, output_in_place w → output_in_place (subprocess_run w cmd).1.

(** It is so now, and was so whenever a command was started. *)
Definition in_place_invariant (st : state World) : Prop :=
  output_in_place (world World st) ∧
  ∀ w cmd, (w, cmd) ∈ invoked World st → output_in_place w.

(** The output has been reported as existing and is in the list. *)
Definition reused (st : state World) : Prop :=
  output_path output_dir (subject_id_of n) contrast_file
  ∈ registered_files World st ∧
  MsgAlreadyExists (output_path output_dir (subject_id_of n) contrast_file)
  ∈ stdout World st.

Hypothesis Hkept : kept_in_place.

Lemma register_file_kept subject_id transform_file st f st' :
  in_place_invariant st →
  register_file output_dir standard_brain subject_id transform_file st f
  = Some st' →
  in_place_invariant st' ∧ (reused st → reused st').
Proof using Hkept.
  intros [Hw Hinv]. unfold Prepare.register_file.
  destruct (path_exists _ _).
  - intros [= <-]. split; [done|]. intros [Hreg Hout]. split; simpl.
    + apply elem_of_app. by left.
    + apply elem_of_app. by left.
  - simpl. destruct (subprocess_run _ _) as [w' [code|]] eqn:Hrun; [|done].
    assert (output_in_place w') as Hw'.
    { specialize (Hkept (world World st)
                    (flirt_cmd f standard_brain transform_file
                       (output_path output_dir subject_id f)) Hw).
      by rewrite Hrun in Hkept. }
    assert (∀ w cmd,
      (w, cmd) ∈ invoked World st
                 ++ [(world World st,
                      flirt_cmd f standard_brain transform_file
                        (output_path output_dir subject_id f))] →
      output_in_place w) as Hinv'.
    { intros w cmd [Hin|[= -> _]%list_elem_of_singleton]%elem_of_app;
        [eauto|done]. }
    destruct (bool_decide _); intros [= <-]; (split; [done|]);
      intros [Hreg Hout]; split; simpl;
      repeat (apply elem_of_app; left); done.
Qed.

Lemma register_files_kept subject_id transform_file contrast_files st st' :
  in_place_invariant st →
  register_files output_dir standard_brain subject_id transform_file
    contrast_files st = Some st' →
  in_place_invariant st' ∧ (reused st → reused st').
Proof using Hkept.
  revert st. induction contrast_files as [|f rest IH]; intros st Hinv; simpl.
  - by intros [= <-].
  - destruct (register_file _ _ _ _ st f) as [st1|] eqn:Hstep; [|done].
    simpl. intros Hrest.
    destruct (register_file_kept _ _ _ _ _ Hinv Hstep) as [Hinv1 Hre1].
    destruct (IH _ Hinv1 Hrest) as [Hinv' Hre']. auto.
Qed.

(** The loop over the contrast files of subject [n] comes to the file,
    finds its output and adds it to the list. *)
Lemma register_files_reuses transform_file contrast_files st st' :
  in_place_invariant st →
  contrast_file ∈ contrast_files →
  register_files output_dir standard_brain (subject_id_of n) transform_file
    contrast_files st = Some st' →
  reused st'.
Proof using Hkept.
  revert st. induction contrast_files as [|f rest IH]; intros st Hinv Hin.
  { by apply elem_of_nil in Hin. }
  cbn [Prepare.register_files].
  destruct (decide (f = contrast_file)) as [->|Hne].
  - rewrite (register_file_exists _ _ _ _ _ _ (proj2 (proj2 (proj1 Hinv)))).
    cbn [mbind option_bind]. intros Hrest.
    eapply register_files_kept; [|exact Hrest|].
    + destruct Hinv as [Hw Hinv]. by split.
    + split; simpl; apply elem_of_app; right; by left.
  - destruct (register_file _ _ _ _ st f) as [st1|] eqn:Hstep; [|done].
    cbn [mbind option_bind]. intros Hrest.
    destruct (register_file_kept _ _ _ _ _ Hinv Hstep) as [Hinv1 _].
    apply (IH st1); [done| |done].
    apply elem_of_cons in Hin as [?|?]; [by subst|done].
Qed.

Lemma print_kept m st :
  in_place_invariant st →
  in_place_invariant (print World m st) ∧
  (reused st → reused (print World m st)).
Proof.
  intros Hinv. split; [done|]. intros [Hreg Hout]. split; [done|].
  simpl. apply elem_of_app. by left.
Qed.

Lemma process_subject_kept st subject_num st' :
  in_place_invariant st →
  process_subject input_dir output_dir standard_brain contrast_type st
    subject_num = Some st' →
  in_place_invariant st' ∧ (reused st → reused st').
Proof using Hkept.
  intros Hinv. unfold Prepare.process_subject.
  destruct (print_kept (MsgProcessing (subject_id_of subject_num)) st Hinv)
    as [Hinv1 Hre1].
  destruct (glob _ (contrast_pattern _ _ _)) as [|f fs].
  { intros [= <-].
    destruct (print_kept (MsgNoContrast contrast_type
                            (subject_id_of subject_num)) _ Hinv1). auto. }
  destruct (glob _ (transform_pattern _ _)) as [|tf tfs].
  { intros [= <-].
    destruct (print_kept (MsgNoTransform (subject_id_of subject_num)) _
                Hinv1). auto. }
  intros Hfiles.
  destruct (register_files_kept _ _ _ _ _ Hinv1 Hfiles). auto.
Qed.

(** The driver, at subject [n], comes to the file. *)
Lemma process_subject_reuses st st' :
  in_place_invariant st →
  process_subject input_dir output_dir standard_brain contrast_type st n
  = Some st' →
  reused st'.
Proof using Hkept.
  intros Hinv. unfold Prepare.process_subject.
  destruct (print_kept (MsgProcessing (subject_id_of n)) st Hinv)
    as [Hinv1 _].
  destruct Hinv as [(Hfound & Hmatrix & Hexists) _]. simpl.
  destruct (glob _ (contrast_pattern _ _ _)) as [|f fs] eqn:Hc.
  { by apply elem_of_nil in Hfound. }
  destruct (glob _ (transform_pattern _ _)) as [|tf tfs]; [done|].
  intros Hfiles. by eapply register_files_reuses.
Qed.

Lemma process_subjects_reuses subjects st st' :
  in_place_invariant st →
  n ∈ subjects →
  process_subjects input_dir output_dir standard_brain contrast_type
    subjects st = Some st' →
  in_place_invariant st' ∧ reused st'.
Proof using Hkept.
  assert (∀ subjects st st',
    in_place_invariant st →
    process_subjects input_dir output_dir standard_brain contrast_type
      subjects st = Some st' →
    in_place_invariant st' ∧ (reused st → reused st')) as Hkeep.
  { clear subjects st st'. intros subjects.
    induction subjects as [|m rest IH]; intros st st' Hinv; simpl.
    - by intros [= <-].
    - destruct (process_subject _ _ _ _ st m) as [st1|] eqn:Hstep; [|done].
      simpl. intros Hrest.
      destruct (process_subject_kept _ _ _ Hinv Hstep) as [Hinv1 Hre1].
      destruct (IH _ _ Hinv1 Hrest). auto. }
  revert st. induction subjects as [|m rest IH]; intros st Hinv Hin.
  { by apply elem_of_nil in Hin. }
  cbn [Prepare.process_subjects].
  destruct (process_subject _ _ _ _ st m) as [st1|] eqn:Hstep; [|done].
  cbn [mbind option_bind]. intros Hrest.
  destruct (process_subject_kept _ _ _ Hinv Hstep) as [Hinv1 _].
  destruct (decide (m = n)) as [->|Hne].
  - apply process_subject_reuses in Hstep; [|done].
    destruct (Hkeep _ _ _ Hinv1 Hrest). auto.
  - apply (IH st1); [done| |done].
    apply elem_of_cons in Hin as [?|?]; [by subst|done].
Qed.

End Reuse.

(** *** The roster *)




(** C9.  When the output file of a contrast file already exists, the loop
    body starts no command: it prints that the file exists and appends its
    path to the registered files.  So in every run that returns, each
    command that was started had an output file that did not exist when it
    was started, and each output file reported as existing is among the
    registered files returned. *)
Theorem existing_outputs_are_reused :
  (∀ output_dir standard_brain subject_id transform_file st contrast_file,
     path_exists (world World st)
       (output_path output_dir subject_id contrast_file) = true →
     ∃ st',
       register_file output_dir standard_brain subject_id transform_file st
         contrast_file = Some st' ∧
       invoked World st' = invoked World st ∧
       world World st' = world World st ∧
       registered_files World st'
       = registered_files World st
           ++ [output_path output_dir subject_id contrast_file] ∧
       stdout World st'
       = stdout World st
           ++ [MsgAlreadyExists
                 (output_path output_dir subject_id contrast_file)]) ∧
  (∀ w input_dir output_dir standard_brain contrast_type st,
     register_to_standard w input_dir output_dir standard_brain
       contrast_type = Some st →
     (∀ w' cmd, (w', cmd) ∈ invoked World st →
                ∃ output_file, out_of cmd = Some output_file ∧
                               path_exists w' output_file = false) ∧
     (∀ output_file, MsgAlreadyExists output_file ∈ stdout World st →
                     output_file ∈ registered_files World st)) ∧
  (∀ w w1 input_dir output_dir standard_brain contrast_type n contrast_file
     st,
     makedirs w output_dir = Some w1 →
     n ∈ subject_numbers →
     output_in_place input_dir output_dir contrast_type n contrast_file w1 →
     kept_in_place input_dir output_dir contrast_type n contrast_file →
     register_to_standard w input_dir output_dir standard_brain
       contrast_type = Some st →
     output_path output_dir (subject_id_of n) contrast_file
     ∈ registered_files World st ∧
     MsgAlreadyExists
       (output_path output_dir (subject_id_of n) contrast_file)
     ∈ stdout World st ∧
     ∀ w' cmd, (w', cmd) ∈ invoked World st →
               out_of cmd
               ≠ Some (output_path output_dir (subject_id_of n)
                         contrast_file)).
Proof.
  assert (∀ w1 input_dir output_dir standard_brain contrast_type st,
    process_subjects input_dir output_dir standard_brain contrast_type
      subject_numbers (State World w1 [] [] []) = Some st →
    reuse_invariant st) as Hreuse.
  { intros w1 input_dir output_dir standard_brain contrast_type st.
    apply process_subjects_invariant. split; simpl.
    - intros w' cmd. by intros ?%elem_of_nil.
    - intros output_file. by intros ?%elem_of_nil. }
  split_and!.
  - intros output_dir standard_brain subject_id transform_file st
      contrast_file Hex.
    rewrite (register_file_exists _ _ _ _ _ _ Hex). by eexists.
  - intros w input_dir output_dir standard_brain contrast_type st.
    unfold Prepare.register_to_standard.
    destruct (makedirs w output_dir) as [w1|]; [|done].
    cbn [mbind option_bind]. apply Hreuse.
  - intros w w1 input_dir output_dir standard_brain contrast_type n
      contrast_file st Hmk Hn Hplace Hkept.
    unfold Prepare.register_to_standard. rewrite Hmk.
    cbn [mbind option_bind]. intros Hrun.
    destruct (process_subjects_reuses input_dir output_dir standard_brain
                contrast_type n contrast_file Hkept subject_numbers
                (State World w1 [] [] []) st)
      as [[_ Hinv] [Hreg Hout]]; [|done|done|].
    { split; [done|]. intros w' cmd. by intros ?%elem_of_nil. }
    split_and!; [done..|].
    intros w' cmd Hin Hcmd.
    destruct (proj1 (Hreuse _ _ _ _ _ _ Hrun) w' cmd Hin)
      as (output_file & Hlast & Hnew).
    destruct (Hinv w' cmd Hin) as (_ & _ & Hold). congruence.
Qed.

End Driver.

(** *** A machine to run the driver on

    The world is the list of the files that exist.  Subject 1 has two
    contrast files and a matrix, subject 2 one contrast file and no matrix,
    the other subjects nothing.  The output of the first contrast file of
    subject 1 exists already; the command fails on the second. *)

Definition toy_makedirs (w : list string) (d : string)
  : option (list string) := Some w.

Definition toy_glob (w : list string) (pattern : string) : list string :=
  if String.eqb pattern "in/sub-01/*cope*.nii.gz"
  then ["in/sub-01/a.cope1.nii.gz"; "in/sub-01/a.cope2.nii.gz"]%string
  else if String.eqb pattern "in/sub-01/*.mat"
  then ["in/sub-01/reg.mat"]%string
  else if String.eqb pattern "in/sub-02/*cope*.nii.gz"
  then ["in/sub-02/a.cope1.nii.gz"]%string
  else [].

Definition toy_exists (w : list string) (p : string) : bool :=
  bool_decide (p ∈ w).

Definition toy_run (w : list string) (cmd : list string)
  : list string * run_result :=
  match last cmd with
  | Some out =>
      if String.eqb out "out/sub-01_a.cope2.nii.gz"
      then (w, Exited 1)
      else (w ++ [out], Exited 0)
  | None => (w, Exited 2)
  end.

Definition toy_world : list string := ["out/sub-01_a.cope1.nii.gz"%string].



(** On the toy machine the commands only add files, and [glob] does not
    depend on the files there are. *)
Lemma toy_run_keeps input_dir output_dir contrast_type n contrast_file :
  kept_in_place toy_glob toy_exists toy_run input_dir output_dir
    contrast_type n contrast_file.
Proof.
  intros w cmd (Hfound & Hmatrix & Hexists). split_and!; [done..|].
  unfold toy_exists in *. apply bool_decide_eq_true in Hexists.
  apply bool_decide_eq_true. unfold toy_run.
  destruct (last cmd) as [out|]; [|done].
  destruct (String.eqb out _); [done|]. apply elem_of_app. by left.
Defined.

Lemma existing_outputs_are_reused_witness :
  toy_makedirs toy_world "out" = Some toy_world ∧
  1 ∈ subject_numbers ∧
  output_in_place toy_glob toy_exists "in" "out" "cope" 1
    "in/sub-01/a.cope1.nii.gz" toy_world ∧
  ∃ st,
    register_to_standard (list string) toy_makedirs toy_glob toy_exists
      toy_run toy_world "in" "out" "MNI152.nii.gz" "cope" = Some st ∧
    output_path "out" (subject_id_of 1) "in/sub-01/a.cope1.nii.gz"
    ∈ registered_files (list string) st ∧
    MsgAlreadyExists
      (output_path "out" (subject_id_of 1) "in/sub-01/a.cope1.nii.gz")
    ∈ stdout (list string) st ∧
    ∀ w' cmd, (w', cmd) ∈ invoked (list string) st →
              out_of cmd
              ≠ Some (output_path "out" (subject_id_of 1)
                        "in/sub-01/a.cope1.nii.gz").
Proof.
  assert (1 ∈ subject_numbers) as Hn
    by (apply (bool_decide_unpack _); vm_compute; exact I).
  assert (output_in_place toy_glob toy_exists "in" "out" "cope" 1
            "in/sub-01/a.cope1.nii.gz" toy_world) as Hplace.
  { split_and!; [|done|done]. apply (bool_decide_unpack _).
    vm_compute. exact I. }
  split; [reflexivity|]. split; [exact Hn|]. split; [exact Hplace|].
  destruct (register_to_standard (list string) toy_makedirs toy_glob
              toy_exists toy_run toy_world "in" "out" "MNI152.nii.gz"
              "cope") as [st|] eqn:Hrun.
  - exists st. split; [reflexivity|].
    exact (proj2 (proj2 (existing_outputs_are_reused toy_makedirs toy_glob
                           toy_exists toy_run))
             toy_world toy_world "in"%string "out"%string
             "MNI152.nii.gz"%string "cope"%string 1
             "in/sub-01/a.cope1.nii.gz"%string st eq_refl Hn Hplace
             (toy_run_keeps _ _ _ _ _) Hrun).
  - exfalso. revert Hrun. vm_compute. discriminate.
Defined.

(** The whole run on that machine: one file reused, one command run, which
    failed. *)
Example toy_run_result :
  ∃ st,
    register_to_standard (list string) toy_makedirs toy_glob toy_exists
      toy_run toy_world "in" "out" "MNI152.nii.gz" "cope" = Some st ∧
    registered_files (list string) st
    = ["out/sub-01_a.cope1.nii.gz"%string] ∧
    (snd <$> invoked (list string) st)
    = [flirt_cmd "in/sub-01/a.cope2.nii.gz" "MNI152.nii.gz"
         "in/sub-01/reg.mat" "out/sub-01_a.cope2.nii.gz"] ∧
    MsgErrorRegistering "a.cope2.nii.gz" 1 ∈ stdout (list string) st ∧
    MsgNoTransform "sub-02" ∈ stdout (list string) st ∧
    MsgNoContrast "cope" "sub-32" ∈ stdout (list string) st.
Proof.
  eexists. split; [vm_compute; reflexivity|].
  split; [reflexivity|]. split; [reflexivity|].
  split_and!; apply (bool_decide_unpack _); vm_compute; exact I.
Qed.

End RegistrationFacts.


(** * Further properties of the two scripts *)



(** ** perform_group_analysis: errors, shapes and degenerate inputs *)

Module AnalysisEdgeFacts.

Import GroupAnalysis Float64Facts GroupAnalysisFacts.

Section Edge.

Variable np_sum : list float → float.
Variable t_sf : float → Z → float.
Variable norm_isf : float → float.

Local Abbreviation perform :=
  (perform_group_analysis np_sum t_sf norm_isf).

(** X1.  The analysis raises exactly when it is given no volume, a volume
    whose data cannot be read, or two volumes of different shapes. *)
Theorem perform_raises_iff images :
  perform images = None ↔
  images = [] ∨
  (∃ img, img ∈ images ∧ get_fdata img = None) ∨
  ∃ a b, a ∈ images ∧ b ∈ images ∧ img_shape a ≠ img_shape b.
Proof.
  split.
  - intros Hnone. destruct images as [|a rest]; [by left|]. right.
    destruct (decide (Forall (λ img, is_Some (get_fdata img)) (a :: rest)))
      as [Hread|Hread].
    + right.
      destruct (decide (Forall (λ img, img_shape img = img_shape a)
                          (a :: rest))) as [Hall|Hall].
      * destruct (perform_is_Some np_sum t_sf norm_isf (a :: rest)
                    (img_shape a)) as [r Hr]; [done..|]. congruence.
      * apply not_Forall_Exists in Hall; [|apply _].
        apply Exists_exists in Hall as (b & Hb & Hne).
        exists b, a. split_and!; [done|by left|done].
    + left. apply not_Forall_Exists in Hread; [|apply _].
      apply Exists_exists in Hread as (img & Himg & Hn).
      exists img. split; [done|]. by apply eq_None_not_Some.
  - intros Hcases.
    destruct (perform images) as [[[t z] df]|] eqn:Hp; [|done]. exfalso.
    pose proof (perform_Some_read _ _ _ _ _ _ _ Hp) as Hread.
    apply perform_Some in Hp as (shp & Hne & Hall & _).
    rewrite Forall_forall in Hall, Hread.
    destruct Hcases as [->|[(img & Himg & Hn)|(a & b & Ha & Hb & Hne')]].
    + done.
    + destruct (Hread img Himg) as [x Hx]. congruence.
    + destruct Hne'. by rewrite (Hall a Ha), (Hall b Hb).
Qed.

(** X2.  The two arrays returned have the shape of every input volume (the
    subject axis is gone) and one value per voxel. *)
Theorem output_shape_is_input_shape images t z df :
  perform images = Some (t, z, df) →
  (∀ img, img ∈ images → img_shape img = shape t) ∧
  shape z = shape t ∧
  length (flat t) = numel (shape t) ∧
  length (flat z) = numel (shape t).
Proof.
  intros (shp & _ & Hall & _ & -> & ->)%perform_Some. simpl.
  rewrite Forall_forall in Hall. split_and!; [done|done|..].
  - unfold compute_t_values.
    rewrite length_fmap, length_zip_with, !length_fmap, length_seq. lia.
  - rewrite compute_z_values_spec. unfold compute_t_values.
    rewrite !length_fmap, length_zip_with, !length_fmap, length_seq. lia.
Qed.

(** X3.  Wherever the t statistic returned is 0, the z statistic returned
    is 0 too, whatever scipy's two functions return there. *)
Theorem zero_t_gives_zero_z images t z df v tv :
  perform images = Some (t, z, df) →
  flat t !! v = Some tv →
  is_zero tv = true →
  ∃ zv, flat z !! v = Some zv ∧ is_zero zv = true.
Proof.
  intros (shp & _ & _ & _ & _ & ->)%perform_Some Htv Hzero. simpl.
  rewrite compute_z_values_lookup, Htv. eexists. split; [reflexivity|].
  cbv beta. apply mul_zero_l. by destruct tv.
Qed.

(** With one value the denominator [max(1 - 1, 0)] of the variance is 0:
    the standard deviation is NaN or infinite, and so the t statistic is
    0. *)
Lemma single_value_t_zero m y :
  is_zero (nan_to_num zero zero zero
             (div m (div (np_sqrt (div y (of_Z 0))) (np_sqrt (of_Z 1)))))
  = true.
Proof.
  change (np_sqrt (of_Z 1)) with one. change (of_Z 0) with zero.
  destruct y as [[]|[]| |[] ? ?]; destruct m as [[]|[]| |[] ? ?]; done.
Qed.

(** X4.  On a single volume whose data can be read the analysis returns,
    with 0 degrees of freedom and a t and a z statistic of 0 at every
    voxel, whatever the volume holds. *)
Theorem single_volume_all_zero shp data :
  ∃ t z,
    perform [Nifti1Image shp (Some data)] = Some (t, z, 0%Z) ∧
    shape t = shp ∧ shape z = shp ∧
    Forall (λ x, is_zero x = true) (flat t) ∧
    Forall (λ x, is_zero x = true) (flat z).
Proof.
  destruct (perform_is_Some np_sum t_sf norm_isf
              [Nifti1Image shp (Some data)] shp)
    as [[[t z] df] Hperform]; [done|by constructor| |].
  { constructor; [by eexists|done]. }
  pose proof Hperform as (shp' & _ & Hall & -> & Ht & Hz)%perform_Some.
  apply Forall_cons in Hall as [Hshp _]. simpl in Hshp. subst shp'.
  exists t, z.
  assert (Forall (λ x, is_zero x = true) (flat t)) as Hzero.
  { rewrite Ht. simpl. apply Forall_lookup. intros v x.
    rewrite compute_t_values_lookup, list_lookup_fmap.
    destruct (seq _ _ !! v) as [i|]; [|done]. simpl. intros [= <-].
    unfold np_std, np_var. simpl length. apply single_value_t_zero. }
  split_and!; [done|by rewrite Ht|by rewrite Hz|done|].
  rewrite Hz. simpl. rewrite compute_z_values_spec. apply Forall_fmap.
  eapply Forall_impl; [exact Hzero|]. intros x Hx. simpl.
  unfold z_statistic. rewrite <- nan_to_num_suppress, mul_comm.
  apply mul_zero_l. by destruct x.
Qed.

End Edge.

Lemma output_shape_is_input_shape_witness :
  perform_group_analysis seq_sum sf_standin isf_standin volumes_m1_3
  = Some (t_m1_3, z_m1_3, 1%Z) ∧
  (∀ img, img ∈ volumes_m1_3 → img_shape img = shape t_m1_3) ∧
  shape z_m1_3 = shape t_m1_3 ∧
  length (flat t_m1_3) = numel (shape t_m1_3) ∧
  length (flat z_m1_3) = numel (shape t_m1_3).
Proof.
  split; [exact perform_m1_3|].
  exact (output_shape_is_input_shape seq_sum sf_standin isf_standin
           volumes_m1_3 t_m1_3 z_m1_3 1%Z perform_m1_3).
Defined.

Lemma zero_t_gives_zero_z_witness :
  perform_group_analysis seq_sum sf_standin isf_standin volumes_one_zero
  = Some (t_one_zero, z_one_zero, 1%Z) ∧
  flat t_one_zero !! 0 = Some zero ∧
  ∃ zv, flat z_one_zero !! 0 = Some zv ∧ is_zero zv = true.
Proof.
  split; [exact perform_one_zero|]. split; [reflexivity|].
  exact (zero_t_gives_zero_z seq_sum sf_standin isf_standin
           volumes_one_zero t_one_zero z_one_zero 1%Z 0 zero
           perform_one_zero eq_refl eq_refl).
Defined.

End AnalysisEdgeFacts.


(** ** load_files: the paths of a manifest *)

Module StripFacts.

Import GroupAnalysis LoadFilesFacts StringFacts.

(** The white space among the 256 characters of the model. *)
Lemma is_space_codes c :
  is_space c
  = bool_decide (nat_of_ascii c
                 ∈ [9; 10; 11; 12; 13; 28; 29; 30; 31; 32; 133; 160]).
Proof. by destruct c as [[] [] [] [] [] [] [] []]; vm_compute. Qed.

Lemma blank_app a b : blank (a +:+ b) = blank a && blank b.
Proof.
  induction a as [|c a IH]; [done|]. rewrite str_app_cons. cbn [blank].
  by rewrite IH, andb_assoc.
Qed.

Lemma lstrip_split s : ∃ pre, s = pre +:+ lstrip s ∧ blank pre = true.
Proof.
  induction s as [|c s (pre & Hs & Hpre)]; [by exists EmptyString|].
  cbn [lstrip]. destruct (is_space c) eqn:Hc.
  - exists (String c pre). rewrite str_app_cons, <- Hs. cbn [blank].
    by rewrite Hc, Hpre.
  - by exists EmptyString.
Qed.

Lemma rstrip_split s : ∃ post, s = rstrip s +:+ post ∧ blank post = true.
Proof.
  induction s as [|c s (post & Hs & Hpost)]; [by exists EmptyString|].
  cbn [rstrip]. destruct (rstrip s) as [|d r] eqn:Hr.
  - destruct (is_space c) eqn:Hc.
    + exists (String c s). split; [done|]. cbn [blank]. rewrite Hc.
      simpl in Hs. by rewrite Hs.
    + exists post. by rewrite str_app_cons, <- Hs.
  - exists post. by rewrite str_app_cons, <- Hs.
Qed.

Lemma lstrip_blank_app pre s : blank pre = true → lstrip (pre +:+ s) = lstrip s.
Proof.
  induction pre as [|c pre IH]; [done|]. cbn [blank].
  intros [Hc Hpre]%andb_true_iff. rewrite str_app_cons. cbn [lstrip].
  rewrite Hc. auto.
Qed.

Lemma rstrip_blank post : blank post = true → rstrip post = EmptyString.
Proof.
  induction post as [|c post IH]; [done|]. cbn [blank].
  intros [Hc Hpost]%andb_true_iff. cbn [rstrip]. by rewrite IH, Hc.
Qed.

Lemma rstrip_blank_app s post :
  blank post = true → rstrip (s +:+ post) = rstrip s.
Proof.
  intros Hpost. induction s as [|c s IH].
  - by apply rstrip_blank.
  - rewrite str_app_cons. cbn [rstrip]. by rewrite IH.
Qed.

Lemma rstrip_head c s :
  is_space c = false → ∃ r, rstrip (String c s) = String c r.
Proof. intros Hc. cbn [rstrip]. rewrite Hc. destruct (rstrip s); eauto. Qed.

Lemma rstrip_idemp s : rstrip (rstrip s) = rstrip s.
Proof.
  induction s as [|c s IH]; [done|]. cbn [rstrip].
  destruct (rstrip s) as [|d r] eqn:Hr.
  - destruct (is_space c) eqn:Hc; [done|]. cbn [rstrip]. by rewrite Hc.
  - cbn [rstrip] in *. by rewrite IH.
Qed.

Lemma lstrip_fixed c s :
  is_space c = false → lstrip (String c s) = String c s.
Proof. intros Hc. cbn [lstrip]. by rewrite Hc. Qed.

Lemma strip_idemp s : strip (strip s) = strip s.
Proof.
  unfold strip. destruct (lstrip_head s) as [->|(c & s' & -> & Hc)]; [done|].
  destruct (rstrip_head c s' Hc) as (r & Hr). rewrite Hr.
  rewrite (lstrip_fixed c r Hc), <- Hr. apply rstrip_idemp.
Qed.

(** A non-empty string that [strip] leaves alone is left alone by both of
    its halves. *)
Lemma strip_fixed_parts p :
  p ≠ EmptyString → strip p = p → lstrip p = p ∧ rstrip p = p.
Proof.
  unfold strip. intros Hne Hs. pose proof Hs as Hs0.
  destruct (lstrip_head p) as [He|(c & s' & He & Hc)].
  - rewrite He in Hs. by destruct Hne.
  - rewrite He in Hs. cbn [rstrip] in Hs. rewrite Hc in Hs.
    assert (lstrip p = p) as Hl.
    { rewrite <- Hs. destruct (rstrip s'); cbn [lstrip]; by rewrite Hc. }
    split; [done|]. by rewrite Hl in Hs0.
Qed.

Lemma lstrip_fixed_app p s :
  p ≠ EmptyString → lstrip p = p → lstrip (p +:+ s) = p +:+ s.
Proof.
  destruct p as [|c p]; [done|]. intros _. cbn [lstrip].
  destruct (is_space c) eqn:Hc.
  - intros Hl. exfalso.
    assert (∀ s, String.length (lstrip s) ≤ String.length s) as Hlen.
    { intros u. induction u as [|d u IH]; [done|]. cbn [lstrip].
      destruct (is_space d); simpl; lia. }
    specialize (Hlen p). rewrite Hl in Hlen. simpl in Hlen. lia.
  - intros _. rewrite str_app_cons. cbn [lstrip]. by rewrite Hc.
Qed.

(** The core of a line between white space on both sides. *)
Lemma strip_framed pre p post :
  p ≠ EmptyString → strip p = p →
  blank pre = true → blank post = true →
  strip (pre +:+ p +:+ post) = p.
Proof.
  intros Hne Hs Hpre Hpost.
  destruct (strip_fixed_parts p Hne Hs) as [Hl Hr].
  unfold strip. rewrite lstrip_blank_app by done.
  rewrite lstrip_fixed_app by done. by rewrite rstrip_blank_app.
Qed.

(** X7.  The paths read from a manifest are exactly the non-empty cores of
    its lines: what is left of a line once the white space on both sides is
    gone, never empty, and with no white space left at either end. *)
Theorem manifest_paths_are_trimmed_lines lines p :
  p ∈ read_file_paths lines ↔
  p ≠ EmptyString ∧ strip p = p ∧
  ∃ pre post, blank pre = true ∧ blank post = true ∧
              (pre +:+ p +:+ post) ∈ lines.
Proof.
  unfold read_file_paths. rewrite list_elem_of_filter, list_elem_of_fmap.
  split.
  - intros (Hne & l & -> & Hl). split_and!; [done|apply strip_idemp|].
    unfold strip. destruct (lstrip_split l) as (pre & Hpre & ?).
    destruct (rstrip_split (lstrip l)) as (post & Hpost & ?).
    exists pre, post. split_and!; [done..|]. by rewrite <- Hpost, <- Hpre.
  - intros (Hne & Hs & pre & post & Hpre & Hpost & Hl).
    split; [done|]. eexists. split; [|exact Hl].
    by rewrite strip_framed.
Qed.

End StripFacts.


(** ** load_files: what it returns and what it reports *)

Module LoaderFacts.

Import GroupAnalysis GroupAnalysisFacts LoadFilesFacts.

(** A manifest naming a volume that does not load, between two that do. *)
Definition fs_missing : filesystem :=
  FileSystem
    {[ "list.txt"%string := ["a.nii.gz"; "gone.nii.gz"; "b.nii.gz"]%string ]}
    {[ "a.nii.gz"%string := vol2; "b.nii.gz"%string := vol3 ]}.

Lemma load_loop_app fs before rest acc :
  Forall (λ q, is_Some (volumes fs !! q)) before →
  ∃ loaded, length loaded = length before ∧
            load_loop fs (before ++ rest) acc
            = load_loop fs rest (acc ++ loaded).
Proof.
  intros Hall. revert acc.
  induction Hall as [|q before [img Hq] _ IH]; intros acc.
  - exists []. by rewrite app_nil_r.
  - simpl. rewrite Hq. destruct (IH (acc ++ [img])) as (loaded & Hlen & ->).
    exists (img :: loaded). simpl. rewrite Hlen. by rewrite <- app_assoc.
Qed.

(** X6.  When a path of the manifest does not load, the loader stops at the
    first such path: it prints the count and that path, and exits with
    status 1, whatever follows in the manifest. *)
Theorem load_failure_names_first_bad_path fs file_list_path before bad
    after :
  manifest_paths fs file_list_path = before ++ bad :: after →
  Forall (λ q, is_Some (volumes fs !! q)) before →
  volumes fs !! bad = None →
  load_files fs file_list_path
  = ([MsgLoading (length (before ++ bad :: after)); MsgErrorLoading bad],
     Exits 1).
Proof.
  unfold manifest_paths, load_files. intros Hpaths Hbefore Hbad.
  destruct (text_files fs !! file_list_path) as [lines|];
    [|by destruct before].
  rewrite Hpaths.
  destruct (load_loop_app fs before (bad :: after) [] Hbefore)
    as (loaded & _ & Hloop).
  assert (load_loop fs (before ++ bad :: after) [] = inl bad) as ->.
  { rewrite Hloop. simpl. by rewrite Hbad. }
  by destruct before.
Qed.

(** A load that returns, read off the code: the manifest opens and holds a
    path, every path loads, no two shapes differ, and one line is
    printed. *)
Lemma load_files_Returns fs file_list_path images :
  (load_files fs file_list_path).2 = Returns images →
  ∃ lines,
    text_files fs !! file_list_path = Some lines ∧
    read_file_paths lines ≠ [] ∧
    load_loop fs (read_file_paths lines) [] = inr images ∧
    (1 <? length (remove_dups (img_shape <$> images))) = false ∧
    (load_files fs file_list_path).1
    = [MsgLoading (length (read_file_paths lines))].
Proof.
  unfold load_files.
  destruct (text_files fs !! file_list_path) as [lines|]; [|done].
  destruct (read_file_paths lines) as [|q qs] eqn:Hpaths; [done|].
  cbv beta iota zeta.
  assert (q :: qs ≠ []) as Hne by done.
  generalize dependent (q :: qs). intros paths Hpaths Hne.
  destruct (load_loop fs paths []) as [path|loaded] eqn:Hloop; [done|].
  simpl.
  destruct (1 <? length _) eqn:Hmixed; [done|]. simpl. intros [= <-].
  exists lines. rewrite Hpaths. by destruct paths.
Qed.

Lemma loaded_same_shape fs file_list_path images :
  (load_files fs file_list_path).2 = Returns images →
  images ≠ [] ∧
  ∀ a b, a ∈ images → b ∈ images → img_shape a = img_shape b.
Proof.
  intros (lines & _ & Hne & Hloop & Hmixed & _)%load_files_Returns.
  apply load_loop_inr in Hloop as (imgs & -> & Hl). simpl in *. split.
  - intros ->. apply Forall2_length in Hl.
    by destruct (read_file_paths lines).
  - intros a b Ha Hb. destruct (decide (img_shape a = img_shape b)); [done|].
    assert ((1 <? length (remove_dups (img_shape <$> imgs))) = true);
      [|congruence].
    apply mixed_shapes_iff. by exists a, b.
Qed.

(** X5.  When the loader returns, it returns at least one volume, the
    volumes are those of the manifest's paths in the manifest's order, they
    all have one shape, and the only line printed is the count. *)
Theorem load_files_success fs file_list_path images :
  (load_files fs file_list_path).2 = Returns images →
  images ≠ [] ∧
  loads fs (manifest_paths fs file_list_path) images ∧
  (∀ a b, a ∈ images → b ∈ images → img_shape a = img_shape b) ∧
  (load_files fs file_list_path).1 = [MsgLoading (length images)].
Proof.
  intros Hload. destruct (loaded_same_shape _ _ _ Hload) as [Hne Hsame].
  destruct (load_files_Returns _ _ _ Hload)
    as (lines & Hopen & _ & Hloop & _ & Hprinted).
  apply load_loop_inr in Hloop as (imgs & Himgs & Hl). simpl in Himgs.
  subst imgs. unfold manifest_paths. rewrite Hopen, Hprinted.
  split_and!; [done..|]. by rewrite (Forall2_length _ _ _ Hl).
Qed.

Section Composition.

Variable np_sum : list float → float.
Variable t_sf : float → Z → float.
Variable norm_isf : float → float.

(** The analysis on volumes of one shape whose data can be read. *)
Lemma perform_on_same_shape images :
  images ≠ [] →
  (∀ a b, a ∈ images → b ∈ images → img_shape a = img_shape b) →
  Forall (λ img, is_Some (get_fdata img)) images →
  ∃ t z,
    perform_group_analysis np_sum t_sf norm_isf images
    = Some (t, z, (Z.of_nat (length images) - 1)%Z) ∧
    (0 ≤ Z.of_nat (length images) - 1)%Z ∧
    ∀ img, img ∈ images → img_shape img = shape t ∧ shape z = shape t.
Proof.
  intros Hne Hsame Hread. destruct images as [|a rest]; [done|].
  destruct (perform_is_Some np_sum t_sf norm_isf (a :: rest) (img_shape a))
    as [[[t z] df] Hperform]; [done| |done|].
  { apply Forall_forall. intros b Hb. apply Hsame; [done|by left]. }
  pose proof Hperform as (shp & _ & Hall & -> & Ht & Hz)%perform_Some.
  exists t, z. split_and!; [done|simpl length; lia|].
  rewrite Forall_forall in Hall. intros img Himg.
  rewrite Hz, Ht. simpl. auto.
Qed.

(** X8.  The loader reads headers only; where the data of the volumes it
    returns can be read as well, the analysis accepts them: it does not
    raise, the degrees of freedom are the number of volumes minus one and
    not negative, and the maps have the shape of the volumes. *)
Theorem loaded_volumes_are_analysed fs file_list_path images :
  (load_files fs file_list_path).2 = Returns images →
  Forall (λ img, is_Some (get_fdata img)) images →
  ∃ t z,
    perform_group_analysis np_sum t_sf norm_isf images
    = Some (t, z, (Z.of_nat (length images) - 1)%Z) ∧
    (0 ≤ Z.of_nat (length images) - 1)%Z ∧
    ∀ img, img ∈ images → img_shape img = shape t ∧ shape z = shape t.
Proof.
  intros [Hne Hsame]%loaded_same_shape Hread.
  by apply perform_on_same_shape.
Qed.

End Composition.

Lemma load_good : (load_files fs_example "good.txt").2 = Returns [vol2; vol2].
Proof. vm_compute. reflexivity. Defined.

Lemma read_good : Forall (λ img, is_Some (get_fdata img)) [vol2; vol2].
Proof. repeat constructor; by eexists. Defined.

Lemma load_files_success_witness :
  (load_files fs_example "good.txt").2 = Returns [vol2; vol2] ∧
  loads fs_example (manifest_paths fs_example "good.txt") [vol2; vol2] ∧
  (load_files fs_example "good.txt").1 = [MsgLoading 2].
Proof.
  split; [exact load_good|].
  pose proof (load_files_success fs_example "good.txt" [vol2; vol2]
                load_good) as (_ & Hl & _ & Hp).
  by split.
Defined.

Lemma load_failure_names_first_bad_path_witness :
  manifest_paths fs_missing "list.txt"
  = ["a.nii.gz"]%string ++ "gone.nii.gz"%string :: ["b.nii.gz"]%string ∧
  volumes fs_missing !! "gone.nii.gz"%string = None ∧
  load_files fs_missing "list.txt"
  = ([MsgLoading 3; MsgErrorLoading "gone.nii.gz"], Exits 1).
Proof.
  assert (manifest_paths fs_missing "list.txt"
          = ["a.nii.gz"]%string ++ "gone.nii.gz"%string
              :: ["b.nii.gz"]%string) as Hpaths
    by (vm_compute; reflexivity).
  assert (volumes fs_missing !! "gone.nii.gz"%string = None) as Hgone
    by (vm_compute; reflexivity).
  split; [exact Hpaths|]. split; [exact Hgone|].
  refine (load_failure_names_first_bad_path fs_missing "list.txt"
            ["a.nii.gz"%string] "gone.nii.gz" ["b.nii.gz"%string] Hpaths _
            Hgone).
  repeat constructor. exists vol2. vm_compute; reflexivity.
Defined.

Lemma loaded_volumes_are_analysed_witness :
  (load_files fs_example "good.txt").2 = Returns [vol2; vol2] ∧
  Forall (λ img, is_Some (get_fdata img)) [vol2; vol2] ∧
  ∃ t z,
    perform_group_analysis seq_sum sf_standin isf_standin [vol2; vol2]
    = Some (t, z, (Z.of_nat (length [vol2; vol2]) - 1)%Z) ∧
    (0 ≤ Z.of_nat (length [vol2; vol2]) - 1)%Z ∧
    ∀ img, img ∈ [vol2; vol2] → img_shape img = shape t ∧ shape z = shape t.
Proof.
  split; [exact load_good|]. split; [exact read_good|].
  exact (loaded_volumes_are_analysed seq_sum sf_standin isf_standin
           fs_example "good.txt" [vol2; vol2] load_good read_good).
Defined.

End LoaderFacts.


(** ** groupanalysis (2).py: save_results and main *)

Module AnalysisMain.

Import GroupAnalysis GroupAnalysisFacts LoadFilesFacts LoaderFacts.

(** A file [nib.save] has written: the values it holds, and the image whose
    affine and header it carries. *)
Record output_image := OutputImage {
  out_data : ndarray;
  out_reference : image
}.

Definition tstat_path (output_prefix : string) : string :=
  output_prefix +:+ ".tstat.nii.gz".
Definition zstat_path (output_prefix : string) : string :=
  output_prefix +:+ ".zstat.nii.gz".

(** The exception of an analysis that raises: the one of [get_fdata] when
    the data of a volume cannot be read (an [OSError] on a truncated file),
    the [ValueError] of [np.stack] otherwise. *)
Definition analysis_exception (images : list image) : exception :=
  if bool_decide (Forall (λ img, is_Some (get_fdata img)) images)
  then ValueError else OSError.

Section Main.

Variable np_sum : list float → float.
Variable t_sf : float → Z → float.
Variable norm_isf : float → float.
(** Whether [nib.save] can write a path; it raises otherwise. *)
Variable can_write : string → bool.
(** What a file holds once [nib.save] has written an array under the
    header of a reference image: [nib.Nifti1Image(data, affine, header)]
    keeps the data type of the header, and saving converts the doubles to
    it, with the scaling nibabel chooses for that type. *)
Variable as_saved : image → ndarray → ndarray.

(** Lines 150-159.  The files saved so far, by path, and how the call
    ends. *)
Definition save_results (saved : gmap string output_image)
    (t_stat_data z_stat_data : ndarray) (output_prefix : string)
    (reference_img : image)
  : gmap string output_image * outcome unit :=
  let t_stat_img :=
    OutputImage (as_saved reference_img t_stat_data) reference_img in
  let t_stat_path := tstat_path output_prefix in
  if can_write t_stat_path then
    let saved := <[t_stat_path := t_stat_img]> saved in
    let z_stat_img :=
      OutputImage (as_saved reference_img z_stat_data) reference_img in
    let z_stat_path := zstat_path output_prefix in
    if can_write z_stat_path
    then (<[z_stat_path := z_stat_img]> saved, Returns ())
    else (saved, Raises OSError)
  else (saved, Raises OSError).

(** Lines 162-182, on [sys.argv].  What [main] prints is left out. *)
Definition main (fs : filesystem) (saved : gmap string output_image)
    (argv : list string) : gmap string output_image * outcome unit :=
  match argv with
  | [_; file_list_path; output_prefix] =>
      match (load_files fs file_list_path).2 with
      | Returns images =>
          match perform_group_analysis np_sum t_sf norm_isf images with
          | Some (t_stat_data, z_stat_data, df) =>
              match images with
              | reference_img :: _ =>
                  save_results saved t_stat_data z_stat_data output_prefix
                    reference_img
              | [] => (saved, Raises ValueError)  (* not reached *)
              end
          | None => (saved, Raises (analysis_exception images))
          end
      | Raises exc => (saved, Raises exc)
      | Exits status => (saved, Exits status)
      end
  | _ => (saved, Exits 1)
  end.

End Main.

Lemma stat_paths_differ output_prefix :
  tstat_path output_prefix ≠ zstat_path output_prefix.
Proof.
  unfold tstat_path, zstat_path.
  induction output_prefix as [|c p IH]; [done|].
  intros [= H]. by apply IH.
Qed.

Section MainFacts.

Variable np_sum : list float → float.
Variable t_sf : float → Z → float.
Variable norm_isf : float → float.
Variable can_write : string → bool.
Variable as_saved : image → ndarray → ndarray.

Local Abbreviation main := (main np_sum t_sf norm_isf can_write as_saved).

(** X9.  With three arguments, a manifest that loads, volumes whose data
    can be read and two writable output paths, [main] returns: the analysis
    does not raise, and the t map and the z map are saved, as [nib.save]
    stores them under the header of the first volume of the manifest,
    under [<prefix>.tstat.nii.gz] and [<prefix>.zstat.nii.gz], two
    different files; the maps have the shape of that volume, and no other
    file is touched. *)
Theorem main_writes_both_maps fs saved prog file_list_path output_prefix
    images :
  (load_files fs file_list_path).2 = Returns images →
  Forall (λ img, is_Some (get_fdata img)) images →
  can_write (tstat_path output_prefix) = true →
  can_write (zstat_path output_prefix) = true →
  ∃ reference_img rest t z saved',
    images = reference_img :: rest ∧
    perform_group_analysis np_sum t_sf norm_isf images
    = Some (t, z, (Z.of_nat (length images) - 1)%Z) ∧
    main fs saved [prog; file_list_path; output_prefix]
    = (saved', Returns ()) ∧
    saved' !! tstat_path output_prefix
    = Some (OutputImage (as_saved reference_img t) reference_img) ∧
    saved' !! zstat_path output_prefix
    = Some (OutputImage (as_saved reference_img z) reference_img) ∧
    shape t = img_shape reference_img ∧
    shape z = img_shape reference_img ∧
    ∀ p, p ≠ tstat_path output_prefix → p ≠ zstat_path output_prefix →
         saved' !! p = saved !! p.
Proof.
  intros Hload Hread Hwt Hwz.
  destruct (loaded_same_shape fs file_list_path images Hload)
    as [Hne Hsame].
  destruct (perform_on_same_shape np_sum t_sf norm_isf images Hne Hsame
              Hread) as (t & z & Hperform & _ & Hshape).
  destruct images as [|reference_img rest]; [done|].
  destruct (Hshape reference_img) as [Ht Hz]; [by left|].
  exists reference_img, rest, t, z. eexists. split_and!; [done|done|..].
  - unfold AnalysisMain.main. rewrite Hload, Hperform.
    unfold save_results. by rewrite Hwt, Hwz.
  - rewrite lookup_insert_ne
      by (intros H; symmetry in H; by apply stat_paths_differ in H).
    by rewrite lookup_insert_eq.
  - by rewrite lookup_insert_eq.
  - done.
  - congruence.
  - intros p Hpt Hpz. by rewrite !lookup_insert_ne.
Qed.

(** X11.  When the argument count is wrong or the loader ends fatally,
    [main] ends fatally too and has saved nothing; a wrong argument count
    is an exit with status 1. *)
Theorem main_failure_writes_nothing fs saved argv :
  (∀ prog file_list_path output_prefix,
     argv = [prog; file_list_path; output_prefix] →
     fatal (load_files fs file_list_path).2) →
  (main fs saved argv).1 = saved ∧
  fatal (main fs saved argv).2 ∧
  (length argv ≠ 3 → (main fs saved argv).2 = Exits 1).
Proof.
  intros Hfatal. unfold AnalysisMain.main.
  destruct argv as [|prog [|file_list_path [|output_prefix [|? ?]]]];
    try done.
  specialize (Hfatal prog file_list_path output_prefix eq_refl).
  by destruct (load_files fs file_list_path).2.
Qed.

(** X10.  [main] returns exactly when it has three arguments, the loader
    returns on the second, the data of every volume it returned can be
    read, and both output paths can be written. *)
Theorem main_returns_iff fs saved argv :
  (main fs saved argv).2 = Returns () ↔
  ∃ prog file_list_path output_prefix images,
    argv = [prog; file_list_path; output_prefix] ∧
    (load_files fs file_list_path).2 = Returns images ∧
    Forall (λ img, is_Some (get_fdata img)) images ∧
    can_write (tstat_path output_prefix) = true ∧
    can_write (zstat_path output_prefix) = true.
Proof.
  split.
  - unfold AnalysisMain.main.
    destruct argv as [|prog [|file_list_path [|output_prefix [|? ?]]]];
      try done.
    destruct (load_files fs file_list_path).2 as [images| |] eqn:Hload;
      try done.
    destruct (perform_group_analysis _ _ _ images) as [[[t z] df]|]
      eqn:Hperform; [|done].
    apply perform_Some_read in Hperform.
    destruct images as [|reference_img rest]; [done|].
    unfold save_results.
    destruct (can_write (tstat_path _)) eqn:Hwt; [|done].
    destruct (can_write (zstat_path _)) eqn:Hwz; [|done].
    intros _.
    by exists prog, file_list_path, output_prefix, (reference_img :: rest).
  - intros (prog & file_list_path & output_prefix & images & -> & Hload
            & Hread & Hwt & Hwz).
    destruct (loaded_same_shape fs file_list_path images Hload)
      as [Hne Hsame].
    destruct (perform_on_same_shape np_sum t_sf norm_isf images Hne Hsame
                Hread) as (t & z & Hperform & _ & _).
    destruct images as [|reference_img rest]; [done|].
    unfold AnalysisMain.main. rewrite Hload, Hperform.
    unfold save_results. by rewrite Hwt, Hwz.
Qed.

End MainFacts.

Lemma main_writes_both_maps_witness :
  (load_files fs_example "good.txt").2 = Returns [vol2; vol2] ∧
  Forall (λ img, is_Some (get_fdata img)) [vol2; vol2] ∧
  ∃ reference_img rest t z saved',
    [vol2; vol2] = reference_img :: rest ∧
    perform_group_analysis seq_sum sf_standin isf_standin [vol2; vol2]
    = Some (t, z, (Z.of_nat (length [vol2; vol2]) - 1)%Z) ∧
    main seq_sum sf_standin isf_standin (λ _, true) (λ _ data, data)
      fs_example ∅ ["group_analysis.py"; "good.txt"; "out/group"]%string
    = (saved', Returns ()) ∧
    saved' !! tstat_path "out/group" = Some (OutputImage t reference_img) ∧
    saved' !! zstat_path "out/group" = Some (OutputImage z reference_img) ∧
    shape t = img_shape reference_img ∧
    shape z = img_shape reference_img ∧
    ∀ p, p ≠ tstat_path "out/group" → p ≠ zstat_path "out/group" →
         saved' !! p = (∅ : gmap string output_image) !! p.
Proof.
  split; [exact load_good|]. split; [exact read_good|].
  exact (main_writes_both_maps seq_sum sf_standin isf_standin (λ _, true)
           (λ _ data, data) fs_example ∅ "group_analysis.py" "good.txt"
           "out/group" [vol2; vol2] load_good read_good eq_refl eq_refl).
Defined.

Lemma main_failure_writes_nothing_witness :
  (∀ prog file_list_path output_prefix,
     ["group_analysis.py"; "mixed.txt"]%string
     = [prog; file_list_path; output_prefix] →
     fatal (load_files fs_example file_list_path).2) ∧
  (main seq_sum sf_standin isf_standin (λ _, true) (λ _ data, data)
     fs_example ∅ ["group_analysis.py"; "mixed.txt"]%string).1 = ∅ ∧
  (main seq_sum sf_standin isf_standin (λ _, true) (λ _ data, data)
     fs_example ∅ ["group_analysis.py"; "mixed.txt"]%string).2 = Exits 1.
Proof.
  assert (∀ prog file_list_path output_prefix,
     ["group_analysis.py"; "mixed.txt"]%string
     = [prog; file_list_path; output_prefix] →
     fatal (load_files fs_example file_list_path).2) as Hargs
    by (intros ? ? ? [=]).
  split; [exact Hargs|].
  pose proof (main_failure_writes_nothing seq_sum sf_standin isf_standin
                (λ _, true) (λ _ data, data) fs_example ∅
                ["group_analysis.py"; "mixed.txt"]%string Hargs)
    as (Hsaved & _ & Hexit).
  split; [exact Hsaved|]. by apply Hexit.
Defined.

End AnalysisMain.


(** ** create_file_list: reading a manifest back, and what a contrast
    number selects *)

Module ManifestRoundTrip.

Import GroupAnalysis LoadFilesFacts Prepare ManifestFacts StringFacts
  StripFacts.

Definition LF : ascii := "010".
Definition CR : ascii := "013".

(** Iterating over a file opened in text mode: the lines, each with its
    line end, where a line ends at LF, CR or CR LF, all read as LF. *)
Fixpoint text_lines (s : string) : list string :=
  match s with
  | EmptyString => []
  | String c s' =>
      if Ascii.eqb c LF then String LF EmptyString :: text_lines s'
      else if Ascii.eqb c CR then
        String LF EmptyString ::
        match s' with
        | String d s'' => if Ascii.eqb d LF then text_lines s''
                          else text_lines s'
        | EmptyString => text_lines s'
        end
      else
        match text_lines s' with
        | [] => [String c EmptyString]
        | l :: ls => String c l :: ls
        end
  end.

(** No line end inside. *)
Fixpoint one_line (s : string) : bool :=
  match s with
  | EmptyString => true
  | String c s' => negb (Ascii.eqb c LF) && negb (Ascii.eqb c CR) && one_line s'
  end.

(** The paths [create_file_list] writes. *)
Definition selected (contrast_num : option Z) (registered_files : list string)
  : list string :=
  match contrast_num with
  | Some n => List.filter (matches_contrast n) registered_files
  | None => registered_files
  end.

Lemma text_lines_line p s :
  one_line p = true →
  text_lines ((p +:+ String LF EmptyString) +:+ s)
  = (p +:+ String LF EmptyString) :: text_lines s.
Proof.
  induction p as [|c p IH]; [done|].
  cbn [one_line]. intros [[Hlf Hcr]%andb_true_iff Hp]%andb_true_iff.
  rewrite !str_app_cons. cbn [text_lines].
  apply negb_true_iff in Hlf, Hcr. rewrite Hlf, Hcr.
  by rewrite IH.
Qed.

Lemma rstrip_newline s : rstrip (s +:+ String LF EmptyString) = rstrip s.
Proof.
  induction s as [|c s IH]; [done|]. rewrite str_app_cons. cbn [rstrip].
  by rewrite IH.
Qed.

Lemma strip_line p :
  p ≠ EmptyString → strip p = p →
  strip (p +:+ String LF EmptyString) = p.
Proof.
  intros Hne Hs. destruct (strip_fixed_parts p Hne Hs) as [Hl Hr].
  unfold strip. destruct p as [|c p]; [done|].
  assert (is_space c = false) as Hc.
  { cbn [lstrip] in Hl. destruct (is_space c) eqn:Hc; [|done].
    exfalso. clear -Hl.
    assert (∀ s, String.length (lstrip s) ≤ String.length s) as Hlen.
    { induction s as [|d s IH]; [done|]. cbn [lstrip].
      destruct (is_space d); simpl; lia. }
    specialize (Hlen p). rewrite Hl in Hlen. simpl in Hlen. lia. }
  rewrite str_app_cons. cbn [lstrip]. rewrite Hc.
  rewrite <- str_app_cons, rstrip_newline. done.
Qed.

(** A path a manifest can carry: not empty, no white space around it, no
    line end inside. *)
Definition clean_path (p : string) : Prop :=
  p ≠ EmptyString ∧ strip p = p ∧ one_line p = true.

Lemma read_back paths :
  Forall clean_path paths →
  read_file_paths (text_lines (write_lines paths)) = paths.
Proof.
  induction 1 as [|p paths (Hne & Hs & Hone) _ IH]; [done|].
  cbn [write_lines]. rewrite text_lines_line by done.
  unfold read_file_paths in *. rewrite fmap_cons, strip_line by done.
  rewrite filter_cons_True by done. by rewrite IH.
Qed.

Lemma filter_Forall {A} (P : A → Prop) f (l : list A) :
  Forall P l → Forall P (List.filter f l).
Proof.
  induction 1 as [|x l Hx _ IH]; simpl; [done|].
  destruct (f x); [by constructor|done].
Qed.

(** X12.  A manifest written by [create_file_list] and read the way
    [load_files] reads a file gives back the paths written, in order, as
    long as no registered path is empty, starts or ends with white space,
    or holds a line end. *)
Theorem manifest_round_trip can_write files registered_files output_file
    contrast_num files' printed :
  Forall clean_path registered_files →
  create_file_list can_write files registered_files output_file contrast_num
  = Some (files', printed) →
  ∃ content,
    files' !! output_file = Some content ∧
    read_file_paths (text_lines content)
    = selected contrast_num registered_files.
Proof.
  intros Hclean. unfold create_file_list.
  destruct (can_write output_file); [|done]. intros [= <- <-].
  eexists. split; [by rewrite lookup_insert_eq|].
  apply read_back. destruct contrast_num; [by apply filter_Forall|done].
Qed.

Lemma substring_of_shorter pat more f :
  substring_of (pat +:+ more) f → substring_of pat f.
Proof.
  intros (before & after & ->). exists before, (more +:+ after).
  by rewrite str_app_assoc.
Qed.

(** X13.  The filter matches substrings, so a contrast number also selects
    the files of every contrast whose number starts with its digits: the
    list for contrast 1 holds the files of contrasts 10 to 19 as well. *)
Theorem contrast_number_prefix_capture N M f :
  String.prefix (str_of_Z N) (str_of_Z M) = true →
  matches_contrast M f = true →
  matches_contrast N f = true.
Proof.
  intros (more & Hm)%prefix_correct. unfold matches_contrast.
  rewrite !orb_true_iff, !str_in_correct, Hm, <- !str_app_assoc.
  intros [H|H]; [left|right]; by eapply substring_of_shorter.
Qed.

Lemma manifest_round_trip_witness :
  Forall clean_path registered_example ∧
  ∃ files' printed content,
    create_file_list (λ _, true) ∅ registered_example "cope1_files.txt"
      (Some 1%Z) = Some (files', printed) ∧
    files' !! "cope1_files.txt"%string = Some content ∧
    read_file_paths (text_lines content)
    = selected (Some 1%Z) registered_example.
Proof.
  assert (Forall clean_path registered_example) as Hclean.
  { repeat constructor; try done; vm_compute; reflexivity. }
  split; [exact Hclean|]. eexists _, _.
  assert (create_file_list (λ _, true) ∅ registered_example
            "cope1_files.txt" (Some 1%Z)
          = Some (<["cope1_files.txt"%string :=
                     write_lines (selected (Some 1%Z) registered_example)]>
                    ∅,
                  (length (selected (Some 1%Z) registered_example),
                   "cope1_files.txt"%string))) as Hcreate by reflexivity.
  destruct (manifest_round_trip (λ _, true) ∅ registered_example
              "cope1_files.txt" (Some 1%Z) _ _ Hclean Hcreate)
    as (content & Hlookup & Hread).
  exists content. by split.
Defined.

Lemma contrast_number_prefix_capture_witness :
  String.prefix (str_of_Z 1) (str_of_Z 12) = true ∧
  matches_contrast 12 "out/sub-01_a.cope12.nii.gz" = true ∧
  matches_contrast 1 "out/sub-01_a.cope12.nii.gz" = true.
Proof.
  split; [reflexivity|]. split; [reflexivity|].
  exact (contrast_number_prefix_capture 1 12 "out/sub-01_a.cope12.nii.gz"
           eq_refl eq_refl).
Defined.

End ManifestRoundTrip.


(** ** register_to_standard: the names of the output files *)

Module OutputNameFacts.

Import Prepare ManifestFacts StringFacts.

(** No slash inside. *)
Fixpoint no_slash (s : string) : bool :=
  match s with
  | EmptyString => true
  | String c s' => negb (Ascii.eqb c "/") && no_slash s'
  end.

Lemma no_slash_app a b :
  no_slash (a +:+ b) = no_slash a && no_slash b.
Proof.
  induction a as [|x a IH]; [done|]. rewrite str_app_cons. cbn [no_slash].
  by rewrite IH, andb_assoc.
Qed.

Lemma basename_from_no_slash acc x :
  no_slash x = true → basename_from acc x = acc +:+ x.
Proof.
  revert acc. induction x as [|c x IH]; intros acc; cbn [no_slash].
  - by rewrite str_app_nil_r.
  - intros [Hc Hx]%andb_true_iff. apply negb_true_iff in Hc.
    cbn [basename_from]. rewrite Hc, IH by done.
    by rewrite str_app_assoc.
Qed.

Lemma basename_from_slash acc p x :
  basename_from acc (p +:+ String "/" x) = basename_from EmptyString x.
Proof.
  revert acc. induction p as [|c p IH]; intros acc.
  - done.
  - rewrite str_app_cons. cbn [basename_from]. by destruct (Ascii.eqb c "/").
Qed.

Lemma basename_from_is_no_slash acc p :
  no_slash acc = true → no_slash (basename_from acc p) = true.
Proof.
  revert acc. induction p as [|c p IH]; intros acc Hacc; [done|].
  cbn [basename_from]. destruct (Ascii.eqb c "/") eqn:Hc.
  - by apply IH.
  - apply IH. rewrite no_slash_app, Hacc. cbn [no_slash]. by rewrite Hc.
Qed.

Lemma string_of_uint_no_slash d :
  no_slash (NilEmpty.string_of_uint d) = true.
Proof. induction d; done. Qed.

Lemma subject_id_no_slash n : no_slash (subject_id_of n) = true.
Proof.
  unfold subject_id_of, format_02d. rewrite no_slash_app.
  destruct (_ <? 2); cbn [no_slash]; by rewrite string_of_uint_no_slash.
Qed.

Lemma endswith_char_split c s :
  endswith_char c s = true → ∃ s', s = s' +:+ String c EmptyString.
Proof.
  induction s as [|d s IH]; [done|]. cbn [endswith_char].
  destruct s as [|e s].
  - intros ->%Ascii.eqb_eq. by exists EmptyString.
  - intros (s' & ->)%IH. by exists (String d s').
Qed.

(** Line 53: the name of the output file of a contrast file. *)
Definition output_name (subject_id contrast_file : string) : string :=
  subject_id +:+ "_" +:+ os_path_basename contrast_file.

Lemma output_name_no_slash n f :
  no_slash (output_name (subject_id_of n) f) = true.
Proof.
  unfold output_name. rewrite !no_slash_app, subject_id_no_slash.
  cbn [no_slash]. unfold os_path_basename.
  by rewrite basename_from_is_no_slash.
Qed.

Lemma startswith_slash_no_slash s :
  no_slash s = true → startswith "/" s = false.
Proof.
  destruct s as [|c s]; [done|]. cbn [no_slash].
  intros [Hc _]%andb_true_iff. apply negb_true_iff in Hc.
  unfold startswith. apply not_true_iff_false.
  intros (rest & [= -> _])%prefix_correct. done.
Qed.

(** [os.path.join] of a directory and a name without a slash, and the
    base name of the result. *)
Lemma join_name output_dir name :
  no_slash name = true →
  (os_path_join output_dir [name] = output_dir +:+ name ∨
   os_path_join output_dir [name] = output_dir +:+ "/" +:+ name) ∧
  os_path_basename (os_path_join output_dir [name]) = name.
Proof.
  intros Hname. unfold os_path_join. cbn [foldl].
  unfold join_step. rewrite (startswith_slash_no_slash name Hname).
  unfold os_path_basename.
  destruct (String.eqb output_dir EmptyString) eqn:Hd; cbn [orb].
  - apply String.eqb_eq in Hd as ->. split; [by left|].
    by rewrite basename_from_no_slash.
  - destruct (endswith_char "/" output_dir) eqn:He.
    + split; [by left|].
      apply endswith_char_split in He as (d' & ->).
      rewrite str_app_assoc, str_app_cons, basename_from_slash.
      by rewrite basename_from_no_slash.
    + split; [by right|].
      rewrite str_app_cons, basename_from_slash.
      by rewrite basename_from_no_slash.
Qed.

Lemma endswith_char_app c d :
  endswith_char c (d +:+ String c EmptyString) = true.
Proof.
  induction d as [|x d IH]; [apply Ascii.eqb_refl|].
  rewrite str_app_cons. cbn [endswith_char].
  destruct d as [|y d]; [apply Ascii.eqb_refl|exact IH].
Qed.

(** When [os.path.join] adds a slash after the directory. *)
Lemma join_name_slash output_dir name :
  no_slash name = true →
  ((output_dir = EmptyString ∨ ∃ d, output_dir = d +:+ "/") →
   os_path_join output_dir [name] = output_dir +:+ name) ∧
  (output_dir ≠ EmptyString → (∀ d, output_dir ≠ d +:+ "/") →
   os_path_join output_dir [name] = output_dir +:+ "/" +:+ name).
Proof.
  intros Hname. unfold os_path_join. cbn [foldl].
  unfold join_step. rewrite (startswith_slash_no_slash name Hname). split.
  - intros [->|[d ->]]; [done|].
    by rewrite endswith_char_app, orb_true_r.
  - intros Hne Hslash.
    destruct (String.eqb output_dir EmptyString) eqn:Hd.
    { by apply String.eqb_eq in Hd. }
    destruct (endswith_char "/" output_dir) eqn:He; [|done].
    apply endswith_char_split in He as [d Hd']. by destruct (Hslash d).
Qed.

(** X14.  The output file of a contrast file lies directly in the output
    directory (the directory, a slash unless it is empty or ends with one,
    and a name without a slash), and its name is the subject identifier, an
    underscore and the name of the contrast file. *)
Theorem output_file_name output_dir n contrast_file :
  (output_path output_dir (subject_id_of n) contrast_file
   = output_dir +:+ output_name (subject_id_of n) contrast_file ∨
   output_path output_dir (subject_id_of n) contrast_file
   = output_dir +:+ "/" +:+ output_name (subject_id_of n) contrast_file) ∧
  os_path_basename (output_path output_dir (subject_id_of n) contrast_file)
  = output_name (subject_id_of n) contrast_file ∧
  no_slash (output_name (subject_id_of n) contrast_file) = true ∧
  ((output_dir = EmptyString ∨ ∃ d, output_dir = d +:+ "/") →
   output_path output_dir (subject_id_of n) contrast_file
   = output_dir +:+ output_name (subject_id_of n) contrast_file) ∧
  (output_dir ≠ EmptyString → (∀ d, output_dir ≠ d +:+ "/") →
   output_path output_dir (subject_id_of n) contrast_file
   = output_dir +:+ "/" +:+ output_name (subject_id_of n) contrast_file).
Proof.
  pose proof (output_name_no_slash n contrast_file) as Hname.
  change (output_path output_dir (subject_id_of n) contrast_file)
    with (os_path_join output_dir
            [output_name (subject_id_of n) contrast_file]).
  destruct (join_name output_dir _ Hname) as [Hpath Hbase].
  destruct (join_name_slash output_dir _ Hname) as [Hnone Hslash].
  by split_and!.
Qed.

Lemma roster_ids_length n :
  n ∈ subject_numbers → String.length (subject_id_of n) = 6.
Proof.
  assert (Forall (λ n, String.length (subject_id_of n) = 6) subject_numbers)
    as Hall by (apply (bool_decide_unpack _); vm_compute; exact I).
  intros Hn. by eapply Forall_forall in Hall.
Qed.

Lemma roster_ids_inj n1 n2 :
  n1 ∈ subject_numbers → n2 ∈ subject_numbers →
  subject_id_of n1 = subject_id_of n2 → n1 = n2.
Proof.
  assert (NoDup (subject_id_of <$> subject_numbers)) as Hnd
    by (apply (bool_decide_unpack _); vm_compute; exact I).
  intros (i & Hi)%list_elem_of_lookup (j & Hj)%list_elem_of_lookup Heq.
  assert (i = j) as ->.
  { eapply NoDup_lookup; [exact Hnd|..].
    - by rewrite list_lookup_fmap, Hi.
    - by rewrite list_lookup_fmap, Hj, Heq. }
  congruence.
Qed.

(** X15.  Two contrast files of the roster's subjects get the same output
    file only if they belong to the same subject and have the same file
    name. *)
Theorem outputs_do_not_collide output_dir n1 n2 f1 f2 :
  n1 ∈ subject_numbers → n2 ∈ subject_numbers →
  output_path output_dir (subject_id_of n1) f1
  = output_path output_dir (subject_id_of n2) f2 →
  n1 = n2 ∧ os_path_basename f1 = os_path_basename f2.
Proof.
  intros Hn1 Hn2 Heq.
  apply (f_equal os_path_basename) in Heq.
  change (output_path output_dir (subject_id_of n1) f1)
    with (os_path_join output_dir [output_name (subject_id_of n1) f1])
    in Heq.
  change (output_path output_dir (subject_id_of n2) f2)
    with (os_path_join output_dir [output_name (subject_id_of n2) f2])
    in Heq.
  rewrite !(λ d n f, proj2 (join_name d _ (output_name_no_slash n f)))
    in Heq.
  unfold output_name in Heq.
  apply str_app_inj_length in Heq as [Hid Hrest];
    [|by rewrite !roster_ids_length].
  split; [by apply roster_ids_inj|].
  by injection Hrest.
Qed.

Lemma outputs_do_not_collide_witness :
  1 ∈ subject_numbers ∧
  output_path "out" (subject_id_of 1) "in/sub-01/a.cope1.nii.gz"
  = output_path "out" (subject_id_of 1) "elsewhere/a.cope1.nii.gz" ∧
  1 = 1 ∧
  os_path_basename "in/sub-01/a.cope1.nii.gz"
  = os_path_basename "elsewhere/a.cope1.nii.gz".
Proof.
  assert (1 ∈ subject_numbers) as H1
    by (apply (bool_decide_unpack _); vm_compute; exact I).
  split; [exact H1|]. split; [reflexivity|].
  exact (outputs_do_not_collide "out" 1 1 "in/sub-01/a.cope1.nii.gz"
           "elsewhere/a.cope1.nii.gz" H1 H1 eq_refl).
Defined.

End OutputNameFacts.


(** ** register_to_standard: the list it returns *)

Module DriverTraceFacts.

Import Prepare ManifestFacts RegistrationFacts.

(** The output files a log reports as existing or as registered. *)
Definition reported_outputs (out : list message) : list string :=
  omap (λ m, match m with
             | MsgAlreadyExists o | MsgRegistered o => Some o
             | _ => None
             end) out.

Section Driver.

Context {World : Type}.
Variable makedirs : World → string → option World.
Variable glob : World → string → list string.
Variable path_exists : World → string → bool.
Variable subprocess_run : World → list string → World * run_result.

Local Abbreviation register_file :=
  (register_file World path_exists subprocess_run).
Local Abbreviation register_files :=
  (register_files World path_exists subprocess_run).
Local Abbreviation process_subject :=
  (process_subject World glob path_exists subprocess_run).
Local Abbreviation process_subjects :=
  (process_subjects World glob path_exists subprocess_run).
Local Abbreviation register_to_standard :=
  (register_to_standard World makedirs glob path_exists subprocess_run).

(** What the driver keeps true of its variables. *)
Definition trace_invariant (output_dir : string) (st : state World) : Prop :=
  registered_files World st = reported_outputs (stdout World st) ∧
  (∀ o, MsgRegistered o ∈ stdout World st →
        ∃ w cmd, (w, cmd) ∈ invoked World st ∧ out_of cmd = Some o ∧
                 (subprocess_run w cmd).2 = Exited 0) ∧
  (∀ name code, MsgErrorRegistering name code ∈ stdout World st →
                code ≠ 0%Z) ∧
  (∀ o, o ∈ registered_files World st →
        ∃ n f, n ∈ subject_numbers ∧
               o = output_path output_dir (subject_id_of n) f).

Lemma reported_outputs_app out1 out2 :
  reported_outputs (out1 ++ out2)
  = reported_outputs out1 ++ reported_outputs out2.
Proof. apply omap_app. Qed.

Lemma register_file_trace output_dir standard_brain n transform_file st
    contrast_file st' :
  n ∈ subject_numbers →
  trace_invariant output_dir st →
  register_file output_dir standard_brain (subject_id_of n) transform_file
    st contrast_file = Some st' →
  trace_invariant output_dir st'.
Proof.
  intros Hn (Hreg & Hrun & Herr & Hout). unfold Prepare.register_file.
  assert (∀ w0 cmd0 o,
    MsgRegistered o ∈ stdout World st →
    ∃ w cmd, (w, cmd) ∈ invoked World st ++ [(w0, cmd0)] ∧
             out_of cmd = Some o ∧ (subprocess_run w cmd).2 = Exited 0)
    as Hrun'.
  { intros w0 cmd0 o Hin. destruct (Hrun o Hin) as (w & cmd & Hi & ? & ?).
    exists w, cmd. split_and!; [|done..]. apply elem_of_app. by left. }
  destruct (path_exists _ _) eqn:Hex.
  - intros [= <-]. split_and!; simpl.
    + by rewrite reported_outputs_app, Hreg.
    + intros o [Hin|Hin%list_elem_of_singleton]%elem_of_app; [auto|done].
    + intros name code [Hin|Hin%list_elem_of_singleton]%elem_of_app;
        [eauto|done].
    + intros o [Hin|Ho%list_elem_of_singleton]%elem_of_app;
        [eauto|subst; eauto].
  - simpl. destruct (subprocess_run _ _) as [w' [code|]] eqn:Hrunres; [|done].
    destruct (bool_decide _) eqn:Hcode; intros [= <-]; split_and!; simpl.
    + rewrite !reported_outputs_app, Hreg. simpl. by rewrite app_nil_r.
    + apply bool_decide_eq_true in Hcode as ->.
      intros o [[Hin|Hin%list_elem_of_singleton]%elem_of_app
                |[= ->]%list_elem_of_singleton]%elem_of_app;
        [auto|done|].
      eexists _, _. split_and!.
      * apply elem_of_app. right. by left.
      * done.
      * by rewrite Hrunres.
    + intros name c [[Hin|Hin%list_elem_of_singleton]%elem_of_app
                     |Hin%list_elem_of_singleton]%elem_of_app;
        [eauto|done|done].
    + intros o [Hin|Ho%list_elem_of_singleton]%elem_of_app;
        [eauto|subst; eauto].
    + rewrite !reported_outputs_app, Hreg. simpl. by rewrite !app_nil_r.
    + intros o [[Hin|Hin%list_elem_of_singleton]%elem_of_app
                |Hin%list_elem_of_singleton]%elem_of_app;
        [auto|done|done].
    + apply bool_decide_eq_false in Hcode.
      intros name c [[Hin|Hin%list_elem_of_singleton]%elem_of_app
                     |[= _ ->]%list_elem_of_singleton]%elem_of_app;
        [eauto|done|done].
    + done.
Qed.

Lemma register_files_trace output_dir standard_brain n transform_file
    contrast_files st st' :
  n ∈ subject_numbers →
  trace_invariant output_dir st →
  register_files output_dir standard_brain (subject_id_of n) transform_file
    contrast_files st = Some st' →
  trace_invariant output_dir st'.
Proof.
  intros Hn. revert st.
  induction contrast_files as [|f rest IH]; intros st Hinv; simpl.
  - by intros [= <-].
  - destruct (register_file _ _ _ _ st f) as [st1|] eqn:Hstep; [|done].
    simpl. apply IH. by eapply register_file_trace.
Qed.

Lemma print_trace output_dir m st :
  (∀ o, m ≠ MsgAlreadyExists o) → (∀ o, m ≠ MsgRegistered o) →
  (∀ name code, m ≠ MsgErrorRegistering name code) →
  trace_invariant output_dir st →
  trace_invariant output_dir (print World m st).
Proof.
  intros H1 H2 H3 (Hreg & Hrun & Herr & Hout). split_and!; simpl.
  - rewrite reported_outputs_app, Hreg.
    destruct m; simpl; rewrite ?app_nil_r; try done.
    + by destruct (H1 output_file).
    + by destruct (H2 output_file).
  - intros o [Hin|Hin%list_elem_of_singleton]%elem_of_app; [auto|].
    by destruct (H2 o).
  - intros name code [Hin|Hin%list_elem_of_singleton]%elem_of_app; [eauto|].
    by destruct (H3 name code).
  - done.
Qed.

Lemma process_subject_trace input_dir output_dir standard_brain
    contrast_type st n st' :
  n ∈ subject_numbers →
  trace_invariant output_dir st →
  process_subject input_dir output_dir standard_brain contrast_type st n
  = Some st' →
  trace_invariant output_dir st'.
Proof.
  intros Hn Hinv. unfold Prepare.process_subject.
  apply (print_trace output_dir (MsgProcessing (subject_id_of n))) in Hinv;
    [|done..].
  destruct (glob _ (contrast_pattern _ _ _)) as [|f fs].
  { intros [= <-]. by apply print_trace. }
  destruct (glob _ (transform_pattern _ _)) as [|tf tfs].
  { intros [= <-]. by apply print_trace. }
  by apply register_files_trace.
Qed.

Lemma process_subjects_trace input_dir output_dir standard_brain
    contrast_type subjects st st' :
  Forall (λ n, n ∈ subject_numbers) subjects →
  trace_invariant output_dir st →
  process_subjects input_dir output_dir standard_brain contrast_type
    subjects st = Some st' →
  trace_invariant output_dir st'.
Proof.
  intros Hsub. revert st.
  induction Hsub as [|n rest Hn _ IH]; intros st Hinv; simpl.
  - by intros [= <-].
  - destruct (process_subject _ _ _ _ st n) as [st1|] eqn:Hstep; [|done].
    simpl. apply IH. by eapply process_subject_trace.
Qed.

(** X16.  The list the driver returns is, in order, the output files it
    reported as already existing or as registered.  A file reported as
    registered is the output of a command that was run and exited with
    status 0; a reported failure has a non-zero status and adds nothing.
    Every path returned is the output path of a contrast file of a subject
    of the roster. *)
Theorem returned_list_is_what_was_reported w input_dir output_dir
    standard_brain contrast_type st :
  register_to_standard w input_dir output_dir standard_brain contrast_type
  = Some st →
  registered_files World st = reported_outputs (stdout World st) ∧
  (∀ o, MsgRegistered o ∈ stdout World st →
        ∃ w' cmd, (w', cmd) ∈ invoked World st ∧ out_of cmd = Some o ∧
                  (subprocess_run w' cmd).2 = Exited 0) ∧
  (∀ name code, MsgErrorRegistering name code ∈ stdout World st →
                code ≠ 0%Z) ∧
  (∀ o, o ∈ registered_files World st →
        ∃ n f, n ∈ subject_numbers ∧
               o = output_path output_dir (subject_id_of n) f).
Proof.
  unfold Prepare.register_to_standard.
  destruct (makedirs w output_dir) as [w1|]; [|done].
  cbn [mbind option_bind]. apply process_subjects_trace.
  - by apply Forall_forall.
  - split_and!; simpl; [done|..].
    + intros o. by intros ?%elem_of_nil.
    + intros name code. by intros ?%elem_of_nil.
    + intros o. by intros ?%elem_of_nil.
Qed.

(** *** A run that finds every output in place *)

(** The outputs of a subject: none without a transformation matrix. *)
Definition subject_outputs (w : World) (input_dir output_dir
    contrast_type : string) (n : nat) : list string :=
  match glob w (transform_pattern input_dir (subject_id_of n)) with
  | [] => []
  | _ :: _ =>
      output_path output_dir (subject_id_of n)
        <$> glob w (contrast_pattern input_dir (subject_id_of n)
                      contrast_type)
  end.

Lemma register_files_all_exist output_dir standard_brain subject_id
    transform_file contrast_files st :
  Forall (λ f, path_exists (world World st)
                 (output_path output_dir subject_id f) = true)
    contrast_files →
  ∃ out,
    register_files output_dir standard_brain subject_id transform_file
      contrast_files st
    = Some (State World (world World st)
              (registered_files World st
                 ++ (output_path output_dir subject_id <$> contrast_files))
              (stdout World st ++ out) (invoked World st)).
Proof.
  revert st. induction contrast_files as [|f rest IH]; intros st Hall.
  - exists []. simpl. rewrite !app_nil_r. by destruct st.
  - apply Forall_cons in Hall as [Hf Hrest]. cbn [Prepare.register_files].
    rewrite (register_file_exists _ _ _ _ _ _ _ _ Hf).
    cbn [mbind option_bind].
    destruct (IH (State World (world World st)
                    (registered_files World st
                       ++ [output_path output_dir subject_id f])
                    (stdout World st
                       ++ [MsgAlreadyExists
                             (output_path output_dir subject_id f)])
                    (invoked World st)) Hrest) as (out & ->).
    simpl. eexists. by rewrite <- !app_assoc.
Qed.

Lemma process_subjects_all_exist input_dir output_dir standard_brain
    contrast_type subjects st :
  (∀ n f, n ∈ subjects →
     glob (world World st) (transform_pattern input_dir (subject_id_of n))
     ≠ [] →
     f ∈ glob (world World st)
           (contrast_pattern input_dir (subject_id_of n) contrast_type) →
     path_exists (world World st)
       (output_path output_dir (subject_id_of n) f) = true) →
  ∃ out,
    process_subjects input_dir output_dir standard_brain contrast_type
      subjects st
    = Some (State World (world World st)
              (registered_files World st
                 ++ (subjects ≫= subject_outputs (world World st) input_dir
                                   output_dir contrast_type))
              (stdout World st ++ out) (invoked World st)).
Proof.
  revert st. induction subjects as [|n rest IH]; intros st Hall.
  - exists []. simpl. rewrite !app_nil_r. by destruct st.
  - cbn [Prepare.process_subjects].
    assert (∃ out,
      process_subject input_dir output_dir standard_brain contrast_type st n
      = Some (State World (world World st)
                (registered_files World st
                   ++ subject_outputs (world World st) input_dir output_dir
                        contrast_type n)
                (stdout World st ++ out) (invoked World st))) as (out1 & ->).
    { unfold Prepare.process_subject, subject_outputs. simpl.
      destruct (glob _ (contrast_pattern _ _ _)) as [|f fs] eqn:Hc.
      { eexists. unfold print. simpl. rewrite <- app_assoc.
        destruct (glob _ (transform_pattern _ _)); by rewrite app_nil_r. }
      destruct (glob _ (transform_pattern _ _)) as [|tf tfs] eqn:Ht.
      { eexists. unfold print. simpl. rewrite <- app_assoc.
        by rewrite app_nil_r. }
      destruct (register_files_all_exist output_dir standard_brain
                  (subject_id_of n) tf (f :: fs)
                  (print World (MsgProcessing (subject_id_of n)) st))
        as (out & ->).
      { apply Forall_forall. intros g Hg. simpl.
        apply Hall; [by left|by rewrite Ht|by rewrite Hc]. }
      simpl. eexists. by rewrite <- app_assoc. }
    cbn [mbind option_bind].
    destruct (IH (State World (world World st)
                    (registered_files World st
                       ++ subject_outputs (world World st) input_dir
                            output_dir contrast_type n)
                    (stdout World st ++ out1) (invoked World st)))
      as (out2 & ->).
    { intros m f Hm. simpl. apply Hall. by right. }
    simpl. eexists. by rewrite <- !app_assoc.
Qed.

(** X17.  When every output file of every subject that has a
    transformation matrix exists already, the driver starts no command and
    leaves the machine as [os.makedirs] left it, and it returns the output
    paths of all those contrast files, subject by subject in the order of
    the roster. *)
Theorem rerun_with_all_outputs_present w w1 input_dir output_dir
    standard_brain contrast_type :
  makedirs w output_dir = Some w1 →
  (∀ n f, n ∈ subject_numbers →
     glob w1 (transform_pattern input_dir (subject_id_of n)) ≠ [] →
     f ∈ glob w1 (contrast_pattern input_dir (subject_id_of n)
                    contrast_type) →
     path_exists w1 (output_path output_dir (subject_id_of n) f) = true) →
  ∃ st,
    register_to_standard w input_dir output_dir standard_brain contrast_type
    = Some st ∧
    world World st = w1 ∧
    invoked World st = [] ∧
    registered_files World st
    = subject_numbers ≫= subject_outputs w1 input_dir output_dir
                           contrast_type.
Proof.
  intros Hmk Hall. unfold Prepare.register_to_standard. rewrite Hmk.
  cbn [mbind option_bind].
  destruct (process_subjects_all_exist input_dir output_dir standard_brain
              contrast_type subject_numbers (State World w1 [] [] []) Hall)
    as (out & ->).
  by eexists.
Qed.

End Driver.

(** The machine of [RegistrationFacts], once with one output in place and
    once with both outputs of subject 1. *)
Definition toy_world_done : list string :=
  ["out/sub-01_a.cope1.nii.gz"; "out/sub-01_a.cope2.nii.gz"]%string.

Lemma returned_list_is_what_was_reported_witness :
  ∃ st,
    register_to_standard (list string) toy_makedirs toy_glob toy_exists
      toy_run toy_world "in" "out" "MNI152.nii.gz" "cope" = Some st ∧
    registered_files (list string) st
    = reported_outputs (stdout (list string) st) ∧
    ∀ o, o ∈ registered_files (list string) st →
         ∃ n f, n ∈ subject_numbers ∧
                o = output_path "out" (subject_id_of n) f.
Proof.
  destruct (register_to_standard (list string) toy_makedirs toy_glob
              toy_exists toy_run toy_world "in" "out" "MNI152.nii.gz"
              "cope") as [st|] eqn:Hrun.
  - exists st. split; [reflexivity|].
    pose proof (returned_list_is_what_was_reported toy_makedirs toy_glob
                  toy_exists toy_run toy_world "in"%string "out"%string
                  "MNI152.nii.gz"%string "cope"%string st Hrun)
      as (Hreg & _ & _ & Hout).
    by split.
  - exfalso. revert Hrun. vm_compute. discriminate.
Defined.

Lemma rerun_with_all_outputs_present_witness :
  toy_makedirs toy_world_done "out" = Some toy_world_done ∧
  ∃ st,
    register_to_standard (list string) toy_makedirs toy_glob toy_exists
      toy_run toy_world_done "in" "out" "MNI152.nii.gz" "cope" = Some st ∧
    world (list string) st = toy_world_done ∧
    invoked (list string) st = [] ∧
    registered_files (list string) st
    = subject_numbers ≫= subject_outputs toy_glob toy_world_done "in" "out"
                           "cope".
Proof.
  split; [reflexivity|].
  refine (rerun_with_all_outputs_present toy_makedirs toy_glob toy_exists
            toy_run toy_world_done toy_world_done "in"%string "out"%string
            "MNI152.nii.gz"%string "cope"%string eq_refl _).
  assert (Forall (λ n,
            toy_glob toy_world_done (transform_pattern "in" (subject_id_of n))
            ≠ [] →
            Forall (λ f, toy_exists toy_world_done
                           (output_path "out" (subject_id_of n) f) = true)
              (toy_glob toy_world_done
                 (contrast_pattern "in" (subject_id_of n) "cope")))
            subject_numbers) as Hall
    by (apply (bool_decide_unpack _); vm_compute; exact I).
  intros n f Hn Ht Hf. rewrite Forall_forall in Hall.
  specialize (Hall n Hn Ht). rewrite Forall_forall in Hall. by apply Hall.
Defined.

End DriverTraceFacts.


(** ** register_to_standard: the commands it starts *)

Module CommandFacts.

Import Prepare ManifestFacts RegistrationFacts.

(** The "Registering" lines of a log. *)
Definition registering_lines (out : list message) : list string :=
  omap (λ m, match m with MsgRegistering name => Some name | _ => None end)
       out.

(** The name a command is announced under: the base name of its input
    file, the argument after [-in]. *)
Definition input_name (cmd : list string) : string :=
  default EmptyString (os_path_basename <$> cmd !! 2).

Section Driver.

Context {World : Type}.
Variable makedirs : World → string → option World.
Variable glob : World → string → list string.
Variable path_exists : World → string → bool.
Variable subprocess_run : World → list string → World * run_result.

Local Abbreviation register_file :=
  (register_file World path_exists subprocess_run).
Local Abbreviation register_files :=
  (register_files World path_exists subprocess_run).
Local Abbreviation process_subject :=
  (process_subject World glob path_exists subprocess_run).
Local Abbreviation process_subjects :=
  (process_subjects World glob path_exists subprocess_run).
Local Abbreviation register_to_standard :=
  (register_to_standard World makedirs glob path_exists subprocess_run).

(** A command of the driver: [flirt] applying the first transformation
    matrix that [glob] found for a subject of the roster to a contrast file
    that [glob] found for the same subject. *)
Definition registration_command (input_dir output_dir standard_brain
    contrast_type : string) (cmd : list string) : Prop :=
  ∃ w0 n contrast_file transform_file others,
    n ∈ subject_numbers ∧
    contrast_file
    ∈ glob w0 (contrast_pattern input_dir (subject_id_of n) contrast_type) ∧
    glob w0 (transform_pattern input_dir (subject_id_of n))
    = transform_file :: others ∧
    cmd = ["flirt"; "-in"; contrast_file; "-ref"; standard_brain;
           "-applyxfm"; "-init"; transform_file; "-out";
           output_path output_dir (subject_id_of n) contrast_file]%string.

Definition command_invariant (input_dir output_dir standard_brain
    contrast_type : string) (st : state World) : Prop :=
  (∀ w cmd, (w, cmd) ∈ invoked World st →
            registration_command input_dir output_dir standard_brain
              contrast_type cmd) ∧
  registering_lines (stdout World st)
  = input_name <$> (snd <$> invoked World st).

Lemma registering_lines_app out1 out2 :
  registering_lines (out1 ++ out2)
  = registering_lines out1 ++ registering_lines out2.
Proof. apply omap_app. Qed.

Lemma register_file_command input_dir output_dir standard_brain
    contrast_type w0 n transform_file others st contrast_file st' :
  n ∈ subject_numbers →
  contrast_file
  ∈ glob w0 (contrast_pattern input_dir (subject_id_of n) contrast_type) →
  glob w0 (transform_pattern input_dir (subject_id_of n))
  = transform_file :: others →
  command_invariant input_dir output_dir standard_brain contrast_type st →
  register_file output_dir standard_brain (subject_id_of n) transform_file
    st contrast_file = Some st' →
  command_invariant input_dir output_dir standard_brain contrast_type st'.
Proof.
  intros Hn Hf Ht [Hcmd Hlines]. unfold Prepare.register_file.
  destruct (path_exists _ _).
  - intros [= <-]. split; simpl; [done|].
    by rewrite registering_lines_app, Hlines, app_nil_r.
  - simpl. destruct (subprocess_run _ _) as [w' [code|]]; [|done].
    assert (∀ w cmd,
      (w, cmd) ∈ invoked World st
                 ++ [(world World st,
                      flirt_cmd contrast_file standard_brain transform_file
                        (output_path output_dir (subject_id_of n)
                           contrast_file))] →
      registration_command input_dir output_dir standard_brain contrast_type
        cmd) as Hcmd'.
    { intros w cmd [Hin|[= -> ->]%list_elem_of_singleton]%elem_of_app;
        [eauto|].
      by exists w0, n, contrast_file, transform_file, others. }
    destruct (bool_decide _); intros [= <-]; (split; simpl; [done|]);
      rewrite !registering_lines_app, Hlines, !fmap_app; simpl;
      by rewrite ?app_nil_r.
Qed.

Lemma register_files_command input_dir output_dir standard_brain
    contrast_type w0 n transform_file others contrast_files st st' :
  n ∈ subject_numbers →
  Forall (λ f, f ∈ glob w0 (contrast_pattern input_dir (subject_id_of n)
                              contrast_type)) contrast_files →
  glob w0 (transform_pattern input_dir (subject_id_of n))
  = transform_file :: others →
  command_invariant input_dir output_dir standard_brain contrast_type st →
  register_files output_dir standard_brain (subject_id_of n) transform_file
    contrast_files st = Some st' →
  command_invariant input_dir output_dir standard_brain contrast_type st'.
Proof.
  intros Hn Hfs Ht. revert st.
  induction Hfs as [|f rest Hf _ IH]; intros st Hinv; simpl.
  - by intros [= <-].
  - destruct (register_file _ _ _ _ st f) as [st1|] eqn:Hstep; [|done].
    simpl. apply IH. by eapply register_file_command.
Qed.

Lemma print_command input_dir output_dir standard_brain contrast_type m st :
  (∀ name, m ≠ MsgRegistering name) →
  command_invariant input_dir output_dir standard_brain contrast_type st →
  command_invariant input_dir output_dir standard_brain contrast_type
    (print World m st).
Proof.
  intros Hm [Hcmd Hlines]. split; simpl; [done|].
  rewrite registering_lines_app, Hlines.
  destruct m; simpl; rewrite ?app_nil_r; try done.
  by destruct (Hm contrast_name).
Qed.

Lemma process_subject_command input_dir output_dir standard_brain
    contrast_type st n st' :
  n ∈ subject_numbers →
  command_invariant input_dir output_dir standard_brain contrast_type st →
  process_subject input_dir output_dir standard_brain contrast_type st n
  = Some st' →
  command_invariant input_dir output_dir standard_brain contrast_type st'.
Proof.
  intros Hn Hinv. unfold Prepare.process_subject.
  apply (print_command _ _ _ _ (MsgProcessing (subject_id_of n))) in Hinv;
    [|done].
  destruct (glob _ (contrast_pattern _ _ _)) as [|f fs] eqn:Hc.
  { intros [= <-]. by apply print_command. }
  destruct (glob _ (transform_pattern _ _)) as [|tf tfs] eqn:Ht.
  { intros [= <-]. by apply print_command. }
  eapply register_files_command; [done| |exact Ht|done].
  rewrite Hc. by apply Forall_forall.
Qed.

Lemma process_subjects_command input_dir output_dir standard_brain
    contrast_type subjects st st' :
  Forall (λ n, n ∈ subject_numbers) subjects →
  command_invariant input_dir output_dir standard_brain contrast_type st →
  process_subjects input_dir output_dir standard_brain contrast_type
    subjects st = Some st' →
  command_invariant input_dir output_dir standard_brain contrast_type st'.
Proof.
  intros Hsub. revert st.
  induction Hsub as [|n rest Hn _ IH]; intros st Hinv; simpl.
  - by intros [= <-].
  - destruct (process_subject _ _ _ _ st n) as [st1|] eqn:Hstep; [|done].
    simpl. apply IH. by eapply process_subject_command.
Qed.

(** X18.  Every command the driver starts is a [flirt -applyxfm] call on a
    contrast file that [glob] found for a subject of the roster, with the
    first transformation matrix found for that subject, the standard brain
    as reference and the file's output path as output.  It prints one
    "Registering" line per command started, in the order of the commands,
    naming the contrast file. *)
Theorem commands_are_flirt_calls w input_dir output_dir standard_brain
    contrast_type st :
  register_to_standard w input_dir output_dir standard_brain contrast_type
  = Some st →
  (∀ w' cmd, (w', cmd) ∈ invoked World st →
             registration_command input_dir output_dir standard_brain
               contrast_type cmd) ∧
  registering_lines (stdout World st)
  = input_name <$> (snd <$> invoked World st).
Proof.
  unfold Prepare.register_to_standard.
  destruct (makedirs w output_dir) as [w1|]; [|done].
  cbn [mbind option_bind]. apply process_subjects_command.
  - by apply Forall_forall.
  - split; simpl; [|done]. intros w' cmd. by intros ?%elem_of_nil.
Qed.

End Driver.

Lemma commands_are_flirt_calls_witness :
  ∃ st,
    register_to_standard (list string) toy_makedirs toy_glob toy_exists
      toy_run toy_world "in" "out" "MNI152.nii.gz" "cope" = Some st ∧
    (∀ w' cmd, (w', cmd) ∈ invoked (list string) st →
               registration_command toy_glob "in" "out" "MNI152.nii.gz"
                 "cope" cmd) ∧
    registering_lines (stdout (list string) st)
    = input_name <$> (snd <$> invoked (list string) st).
Proof.
  destruct (register_to_standard (list string) toy_makedirs toy_glob
              toy_exists toy_run toy_world "in" "out" "MNI152.nii.gz"
              "cope") as [st|] eqn:Hrun.
  - exists st. split; [reflexivity|].
    exact (commands_are_flirt_calls toy_makedirs toy_glob toy_exists
             toy_run toy_world "in"%string "out"%string
             "MNI152.nii.gz"%string "cope"%string st Hrun).
  - exfalso. revert Hrun. vm_compute. discriminate.
Defined.

End CommandFacts.


(** ** prepare.py: main *)

Module PrepareMain.

Import Prepare ManifestFacts RegistrationFacts.

(** The parsed command line. *)
Record args := Args {
  input_dir : string;
  output_dir : string;
  standard : string;
  contrast_type : string;
  contrasts : option (list Z)
}.

(** Lines 122 and 128: the paths of the file lists. *)
Definition all_list_path (a : args) : string :=
  os_path_join (output_dir a) ["all_" +:+ contrast_type a +:+ "_files.txt"].

Definition contrast_list_path (a : args) (contrast_num : Z) : string :=
  os_path_join (output_dir a)
    [contrast_type a +:+ str_of_Z contrast_num +:+ "_files.txt"].

(** Lines 127-129: the loop over the requested contrasts. *)
Fixpoint write_contrast_lists (can_write : string → bool) (a : args)
    (registered_files : list string) (contrast_nums : list Z)
    (files : gmap string string) : option (gmap string string) :=
  match contrast_nums with
  | [] => Some files
  | contrast_num :: rest =>
      '(files, _) ← create_file_list can_write files registered_files
                      (contrast_list_path a contrast_num)
                      (Some contrast_num);
      write_contrast_lists can_write a registered_files rest files
  end.

Section Main.

Context {World : Type}.
Variable makedirs : World → string → option World.
Variable glob : World → string → list string.
Variable path_exists : World → string → bool.
Variable subprocess_run : World → list string → World * run_result.
Variable can_write : string → bool.

(** Lines 113-129.  The state in which the driver returned and the text
    files after the file lists were written; [None] when an exception
    ends the script. *)
Definition main (w : World) (files : gmap string string) (a : args)
  : option (state World * gmap string string) :=
  st ← register_to_standard World makedirs glob path_exists subprocess_run
         w (input_dir a) (output_dir a) (standard a) (contrast_type a);
  let registered_files := registered_files World st in
  '(files, _) ← create_file_list can_write files registered_files
                  (all_list_path a) None;
  match contrasts a with
  | Some ((_ :: _) as contrast_nums) =>
      files ← write_contrast_lists can_write a registered_files
                contrast_nums files;
      Some (st, files)
  | _ => Some (st, files)
  end.

Lemma filter_sublist {A} (f : A → bool) (l : list A) :
  List.filter f l `sublist_of` l.
Proof.
  induction l as [|x l IH]; simpl; [done|].
  destruct (f x); [by apply sublist_skip|by apply sublist_cons].
Qed.

(** Every text file is as it was, or holds registered files in their
    order, each followed by a line end. *)
Definition lists_registered (registered_files : list string)
    (files files' : gmap string string) : Prop :=
  ∀ p, files' !! p = files !! p ∨
       ∃ listed,
         listed `sublist_of` registered_files ∧
         files' !! p
         = Some (String.concat "" ((λ path, path +:+ newline) <$> listed)).

Lemma create_file_list_lists can_write' registered_files files0 files
    output_file contrast_num files' printed :
  lists_registered registered_files files0 files →
  create_file_list can_write' files registered_files output_file
    contrast_num = Some (files', printed) →
  lists_registered registered_files files0 files' ∧
  ∀ p, p ≠ output_file → files' !! p = files !! p.
Proof.
  intros Hl. unfold create_file_list.
  destruct (can_write' output_file); [|done]. intros [= <- <-]. split.
  - intros p. destruct (decide (p = output_file)) as [->|Hne].
    + right. rewrite lookup_insert_eq, write_lines_concat.
      eexists. split; [|done].
      destruct contrast_num; [apply filter_sublist|done].
    + rewrite lookup_insert_ne by done. apply Hl.
  - intros p Hne. by rewrite lookup_insert_ne.
Qed.

Lemma write_contrast_lists_lists a registered_files contrast_nums files0
    files files' :
  lists_registered registered_files files0 files →
  write_contrast_lists can_write a registered_files contrast_nums files
  = Some files' →
  lists_registered registered_files files0 files' ∧
  ∀ p, (∀ c, c ∈ contrast_nums → p ≠ contrast_list_path a c) →
       files' !! p = files !! p.
Proof.
  revert files. induction contrast_nums as [|c rest IH]; intros files Hl.
  - simpl. by intros [= <-].
  - cbn [write_contrast_lists].
    destruct (create_file_list _ _ _ _ _) as [[files1 printed]|] eqn:Hc;
      [|done].
    cbn [mbind option_bind].
    destruct (create_file_list_lists _ _ _ _ _ _ _ _ Hl Hc) as [Hl1 Hsame1].
    intros [Hl' Hsame']%(IH _ Hl1). split; [done|].
    intros p Hp. rewrite Hsame', Hsame1; [done|..].
    + apply Hp. by left.
    + intros c' Hc'. apply Hp. by right.
Qed.

(** X19.  When [main] returns, the driver has returned, and every text
    file is as it was or holds registered files in their order, each
    followed by a line end.  Only the overall list and the lists of the
    requested contrasts are written; the overall list holds every
    registered file, unless a contrast list was written over it. *)
Theorem main_file_lists w files a st files' :
  main w files a = Some (st, files') →
  register_to_standard World makedirs glob path_exists subprocess_run w
    (input_dir a) (output_dir a) (standard a) (contrast_type a) = Some st ∧
  (∀ p, files' !! p = files !! p ∨
        ∃ listed,
          listed `sublist_of` registered_files World st ∧
          files' !! p
          = Some (String.concat ""
                    ((λ path, path +:+ newline) <$> listed))) ∧
  (∀ p, p ≠ all_list_path a →
        (∀ c, c ∈ default [] (contrasts a) → p ≠ contrast_list_path a c) →
        files' !! p = files !! p) ∧
  ((∀ c, c ∈ default [] (contrasts a) →
         contrast_list_path a c ≠ all_list_path a) →
   files' !! all_list_path a
   = Some (String.concat ""
             ((λ path, path +:+ newline) <$> registered_files World st))).
Proof.
  unfold main.
  destruct (register_to_standard _ _ _ _ _ _ _ _ _ _) as [st0|]; [|done].
  cbn [mbind option_bind].
  destruct (create_file_list _ _ _ _ _) as [[files1 printed]|] eqn:Hall;
    [|done].
  cbn [mbind option_bind].
  assert (lists_registered (registered_files World st0) files files) as Hl0
    by (intros p; by left).
  destruct (create_file_list_lists _ _ _ _ _ _ _ _ Hl0 Hall) as [Hl1 Hsame1].
  assert (files1 !! all_list_path a
          = Some (String.concat ""
                    ((λ path, path +:+ newline)
                       <$> registered_files World st0))) as Hall1.
  { revert Hall. unfold create_file_list.
    destruct (can_write _); [|done]. intros [= <- _].
    by rewrite lookup_insert_eq, write_lines_concat. }
  destruct (contrasts a) as [[|c cs]|] eqn:Hcs.
  - intros [= <- <-]. split_and!; [done|exact Hl1|..].
    + intros p Hp _. by apply Hsame1.
    + done.
  - destruct (write_contrast_lists _ _ _ _ _) as [files2|] eqn:Hw; [|done].
    cbn [mbind option_bind]. intros [= <- <-].
    destruct (write_contrast_lists_lists _ _ _ _ _ _ Hl1 Hw) as [Hl2 Hsame2].
    split_and!; [done|exact Hl2|..].
    + intros p Hp Hpc. rewrite Hsame2 by exact Hpc. by apply Hsame1.
    + intros Hne. rewrite Hsame2; [done|].
      intros c' Hc' Heq. by apply (Hne c' Hc').
  - intros [= <- <-]. split_and!; [done|exact Hl1|..].
    + intros p Hp _. by apply Hsame1.
    + done.
Qed.

End Main.

Definition toy_args : args :=
  Args "in" "out" "MNI152.nii.gz" "cope" (Some [1%Z; 2%Z]).

Lemma main_file_lists_witness :
  ∃ st files',
    main toy_makedirs toy_glob toy_exists toy_run (λ _, true) toy_world ∅
      toy_args = Some (st, files') ∧
    (∀ p, files' !! p = (∅ : gmap string string) !! p ∨
          ∃ listed,
            listed `sublist_of` registered_files (list string) st ∧
            files' !! p
            = Some (String.concat ""
                      ((λ path, path +:+ newline) <$> listed))) ∧
    files' !! all_list_path toy_args
    = Some (String.concat ""
              ((λ path, path +:+ newline)
                 <$> registered_files (list string) st)).
Proof.
  destruct (main toy_makedirs toy_glob toy_exists toy_run (λ _, true)
              toy_world ∅ toy_args) as [[st files']|] eqn:Hmain.
  - exists st, files'. split; [reflexivity|].
    pose proof (main_file_lists toy_makedirs toy_glob toy_exists toy_run
                  (λ _, true) toy_world ∅ toy_args st files' Hmain)
      as (_ & Hlists & _ & Hall).
    split; [exact Hlists|]. apply Hall.
    intros c Hc. simpl in Hc.
    apply elem_of_cons in Hc as [->|Hc]; [by vm_compute|].
    apply list_elem_of_singleton in Hc as ->. by vm_compute.
  - exfalso. revert Hmain. vm_compute. discriminate.
Defined.

End PrepareMain.
